(** * Apartment distribution engine: a shallow embedding

    This development embeds the allocation engine of the repository
    ([src/lib/distributionAlgorithm.ts]) and the auto-distribution handler of
    [src/components/AppartementsList.tsx], and states the properties of the
    written specification over that embedding.

    Modelling conventions.
    - A JavaScript [number] has two readings.  In the module [Ieee] it is an
      IEEE 754 binary64 value ([PrimFloat.float]), with its rounding, its
      overflow to [Infinity] and its [NaN]: the properties of the scores, of
      the totals and of the choice of [suggestOptimalAgent] that depend on
      them are stated there.  Elsewhere it is an exact rational ([Q]), the
      literal [Infinity] of a running minimum being the extra point of
      [bound], and rounding, [NaN] and overflow are left out: this reading
      serves the handlers, the lists, the routes and the balance metric.
    - A [string | null] field is an [option string]; JavaScript truthiness of
      such a value ([null] and the empty string are falsy) is [truthy].
    - An ES [Map] is an insertion-ordered association list without duplicate
      keys ([JsMap]).
    - The summary objects that the UI shares between its state and the
      simulation of [handleAutoDistribute] live in a store ([heap]); a [Map]
      held by the component then maps keys to locations.
    - [Math.sqrt], [Math.sin], [Math.cos], [Math.atan2] and [Math.PI] belong
      to the host language; they are the fields of the class [JsMath], and
      [localeCompare] is the field of [JsLocale].
    - A handler that awaits the storage layer is a [Prog]: a tree of calls
      ([Call]) and continuations, run against an arbitrary environment
      ([World]) that answers each call. *)

From stdpp Require Import base option gmap.
From Stdlib Require Import List String ZArith QArith Qabs Qminmax Lia Permutation.
From Stdlib Require Import Lqa Qpower Sorted DecimalString.
From Stdlib Require Import PrimFloat SpecFloat FloatOps FloatAxioms.
From Stdlib Require Uint63.
Import ListNotations.

(* A decimal literal in [float_scope] denotes the nearest binary64 value, as
   it does in JavaScript. *)
#[local] Set Warnings "-inexact-float".

Local Open Scope string_scope.

(** ** Data model ([src/lib/supabase.ts]) *)

Module Agent.
Record t : Type := mk {
  id : string;
  nom : string;
  email : string;
  secteur_preference : option string;
  charge_actuelle : Q;
  created_at : string
}.
End Agent.

Inductive Statut : Type := disponible | assigne | inactif.

Definition Statut_eqb (a b : Statut) : bool :=
  match a, b with
  | disponible, disponible | assigne, assigne | inactif, inactif => true
  | _, _ => false
  end.

Module Appartement.
Record t : Type := mk {
  id : string;
  nom : string;
  adresse : string;
  secteur : string;
  nombre_chambres : Q;
  surface : Q;
  distance_base : Q;
  latitude : option Q;
  longitude : option Q;
  difficulte : Q;
  agent_id : option string;
  statut : Statut;
  created_at : string;
  updated_at : string
}.
End Appartement.

(** [DistributionScore] of [distributionAlgorithm.ts]. *)
Module Score.
Record t : Type := mk {
  agent_id : string;
  total_chambres : Q;
  total_surface : Q;
  total_distance : Q;
  total_difficulte : Q;
  nombre_appartements : nat;
  score_equilibre : Q
}.
End Score.

Abbreviation Agent := Agent.t.
Abbreviation Appartement := Appartement.t.
Abbreviation DistributionScore := Score.t.

(** JavaScript truthiness of a [string | null]: [null] and [""] are falsy. *)
Definition truthy (s : option string) : bool :=
  match s with
  | Some k => negb (String.eqb k "")
  | None => false
  end.

(** [x || 0] on a number: a falsy number is [0], so the result is [x] up to
    the representation of zero. *)
Definition or_zero (x : Q) : Q := if Qeq_bool x 0 then 0%Q else x.

(** The value of a running minimum that starts at [Infinity]. *)
Inductive bound : Type :=
| Infinity
| Fin (q : Q).

(** [d < b] where [d] is finite. *)
Definition below (d : Q) (b : bound) : bool :=
  match b with
  | Infinity => true
  | Fin q => if Qlt_le_dec d q then true else false
  end.

(** ** ES [Map] with string keys *)

Module JsMap.
Section Ops.
Context {V : Type}.

Definition t : Type := list (string * V).

Definition empty : t := [].

Fixpoint get (k : string) (m : t) : option V :=
  match m with
  | [] => None
  | (k', v) :: m' => if String.eqb k k' then Some v else get k m'
  end.

Definition has (k : string) (m : t) : bool :=
  match get k m with Some _ => true | None => false end.

(** [set] overwrites in place when the key is present and appends a new
    entry otherwise, as the iteration order of an ES [Map] requires. *)
Fixpoint set (k : string) (v : V) (m : t) : t :=
  match m with
  | [] => [(k, v)]
  | (k', v') :: m' =>
      if String.eqb k k' then (k, v) :: m' else (k', v') :: set k v m'
  end.

Definition keys (m : t) : list string := List.map fst m.

Definition values (m : t) : list V := List.map snd m.

(** Every ES [Map] has pairwise distinct keys. *)
Definition wf (m : t) : Prop := List.NoDup (keys m).
End Ops.
Arguments t : clear implicits.
End JsMap.

(** ** WorkloadScorer *)

(** From here to the handlers a [number] is an exact rational; the binary64
    reading of the scorer, of the aggregator and of the advisor is in the
    module [Ieee] further down. *)

Local Open Scope Q_scope.

Definition chambreWeight : Q := 10.
Definition surfaceWeight : Q := 1 # 2.
Definition distanceWeight : Q := 2.
Definition difficulteWeight : Q := 15.

Definition calculateWorkloadScore (appartement : Appartement) : Q :=
  Appartement.nombre_chambres appartement * chambreWeight +
  Appartement.surface appartement * surfaceWeight +
  Appartement.distance_base appartement * distanceWeight +
  Appartement.difficulte appartement * difficulteWeight.

(** ** LoadAggregator *)

Definition zeroScore (id : string) : DistributionScore :=
  Score.mk id 0 0 0 0 0%nat 0.

(** First loop of [calculateAgentScores]: one zero summary per agent. *)
Definition initScores (agents : list Agent) : JsMap.t DistributionScore :=
  fold_left (fun scores agent => JsMap.set (Agent.id agent) (zeroScore (Agent.id agent)) scores)
            agents JsMap.empty.

(** The body of the second loop, applied to the summary found under the
    unit's agent: the four totals and the count grow, and [score_equilibre]
    is overwritten with the score of the unit alone. *)
Definition addUnit (score : DistributionScore) (appt : Appartement) : DistributionScore :=
  Score.mk (Score.agent_id score)
           (Score.total_chambres score + Appartement.nombre_chambres appt)
           (Score.total_surface score + Appartement.surface appt)
           (Score.total_distance score + Appartement.distance_base appt)
           (Score.total_difficulte score + Appartement.difficulte appt)
           (Score.nombre_appartements score + 1)%nat
           (calculateWorkloadScore appt).

(** One iteration of the second loop.  The summaries of one call are fresh
    objects, one per key, so the in-place update of the object found under
    [agent_id] is the replacement of the value stored under that key. *)
Definition accumulate (scores : JsMap.t DistributionScore) (appt : Appartement)
  : JsMap.t DistributionScore :=
  match Appartement.agent_id appt with
  | Some k =>
      if truthy (Some k) && JsMap.has k scores then
        match JsMap.get k scores with
        | Some score => JsMap.set k (addUnit score appt) scores
        | None => scores
        end
      else scores
  | None => scores
  end.

(** The weight formula applied to the totals of a summary. *)
Definition weighTotals (score : DistributionScore) : Q :=
  Score.total_chambres score * chambreWeight +
  Score.total_surface score * surfaceWeight +
  Score.total_distance score * distanceWeight +
  Score.total_difficulte score * difficulteWeight.

(** The body of the third loop. *)
Definition rescore (score : DistributionScore) : DistributionScore :=
  Score.mk (Score.agent_id score)
           (Score.total_chambres score)
           (Score.total_surface score)
           (Score.total_distance score)
           (Score.total_difficulte score)
           (Score.nombre_appartements score)
           (weighTotals score).

Definition calculateAgentScores (agents : list Agent) (appartements : list Appartement)
  : JsMap.t DistributionScore :=
  let scores := initScores agents in
  let scores := fold_left accumulate appartements scores in
  List.map (fun '(k, score) => (k, rescore score)) scores.

(** ** AssignmentAdvisor *)

(** [Array.from(currentScores.values()).reduce(...) / agents.length]. *)
Definition avgScore (agents : list Agent) (currentScores : JsMap.t DistributionScore) : Q :=
  fold_left (fun sum s => sum + Score.score_equilibre s) (JsMap.values currentScores) 0
  / inject_Z (Z.of_nat (List.length agents)).

(** [agent.secteur_preference === appartement.secteur ? -20 : 0]. *)
Definition secteurBonus (agent : Agent) (appartement : Appartement) : Q :=
  match Agent.secteur_preference agent with
  | Some p => if String.eqb p (Appartement.secteur appartement) then -20 else 0
  | None => 0
  end.

(** [currentScores.get(agent.id)?.score_equilibre || 0]. *)
Definition agentScore (agent : Agent) (currentScores : JsMap.t DistributionScore) : Q :=
  match JsMap.get (Agent.id agent) currentScores with
  | Some s => or_zero (Score.score_equilibre s)
  | None => 0
  end.

(** The body of the loop over the agents; the state is
    [(bestAgent, lowestScoreDiff)]. *)
Definition considerAgent (appartement : Appartement) (agents : list Agent)
    (currentScores : JsMap.t DistributionScore)
    (st : option string * bound) (agent : Agent) : option string * bound :=
  let apptScore := calculateWorkloadScore appartement in
  let newScore := agentScore agent currentScores + apptScore + secteurBonus agent appartement in
  let scoreDiff := Qabs (newScore - avgScore agents currentScores) in
  if below scoreDiff (snd st) then (Some (Agent.id agent), Fin scoreDiff) else st.

Definition suggestOptimalAgent (appartement : Appartement) (agents : list Agent)
    (currentScores : JsMap.t DistributionScore) : option string :=
  if (List.length agents =? 0)%nat then None
  else fst (fold_left (considerAgent appartement agents currentScores) agents (None, Infinity)).

(** ** BalanceMetric and GeoDistance *)

(** The functions and the constant of the host's [Math] object. *)
Class JsMath : Type := {
  Math_sqrt : Q -> Q;
  Math_sin : Q -> Q;
  Math_cos : Q -> Q;
  Math_atan2 : Q -> Q -> Q;
  Math_PI : Q
}.

Definition calculateEquilibreGlobal `{JsMath} (scores : JsMap.t DistributionScore) : Q :=
  let scoreValues := List.map Score.score_equilibre (JsMap.values scores) in
  if (List.length scoreValues =? 0)%nat then 0
  else
    let n := inject_Z (Z.of_nat (List.length scoreValues)) in
    let avg := fold_left (fun sum val => sum + val) scoreValues 0 / n in
    let variance := fold_left (fun sum val => sum + (val - avg) ^ 2) scoreValues 0 / n in
    let stdDev := Math_sqrt variance in
    let coefficientOfVariation :=
      if Qlt_le_dec 0 avg then (stdDev / avg) * 100 else 0 in
    Qmax 0 (100 - coefficientOfVariation).

Module Point.
Record t : Type := mk { latitude : Q; longitude : Q }.
End Point.
Abbreviation Point := Point.t.

Definition calculateDistanceKm `{JsMath} (a b : Point) : Q :=
  let R := 6371 in
  let dLat := ((Point.latitude b - Point.latitude a) * Math_PI) / 180 in
  let dLng := ((Point.longitude b - Point.longitude a) * Math_PI) / 180 in
  let lat1 := (Point.latitude a * Math_PI) / 180 in
  let lat2 := (Point.latitude b * Math_PI) / 180 in
  let x := Math_sin (dLat / 2) ^ 2 +
           Math_sin (dLng / 2) ^ 2 * Math_cos lat1 * Math_cos lat2 in
  let c := 2 * Math_atan2 (Math_sqrt x) (Math_sqrt (1 - x)) in
  R * c.

(** ** RouteBuilder *)

Module Step.
Record t : Type := mk {
  appartement : Appartement;
  ordre : nat;
  distanceDepuisPrecedent : Q
}.
End Step.
Abbreviation AgentRouteStep := Step.t.

Module Route.
Record t : Type := mk {
  agentId : string;
  totalDistance : Q;
  etapes : list AgentRouteStep
}.
End Route.
Abbreviation AgentRoute := Route.t.

(** [a.latitude !== null && a.longitude !== null]. *)
Definition visitable (a : Appartement) : bool :=
  match Appartement.latitude a, Appartement.longitude a with
  | Some _, Some _ => true
  | _, _ => false
  end.

(** A coordinate read through the non-null assertion [!], which is erased
    at run time: arithmetic on [null] reads it as [0]. *)
Definition asNumber (c : option Q) : Q :=
  match c with Some q => q | None => 0 end.

(** [{ latitude: appt.latitude!, longitude: appt.longitude! }]. *)
Definition pointOf (appt : Appartement) : Point :=
  Point.mk (asNumber (Appartement.latitude appt)) (asNumber (Appartement.longitude appt)).

(** [currentPoint ? calculateDistanceKm(currentPoint, p) : 0]. *)
Definition distanceFrom `{JsMath} (currentPoint : option Point) (p : Point) : Q :=
  match currentPoint with
  | Some c => calculateDistanceKm c p
  | None => 0
  end.

(** The body of [remaining.forEach((appt, index) => ...)]; the state is
    [(bestIndex, bestDistance)]. *)
Definition considerStop `{JsMath} (currentPoint : option Point)
    (st : nat * bound) (entry : nat * Appartement) : nat * bound :=
  let d := distanceFrom currentPoint (pointOf (snd entry)) in
  if below d (snd st) then (fst entry, Fin d) else st.

(** The index chosen by one pass over [remaining]. *)
Definition nearestIndex `{JsMath} (currentPoint : option Point)
    (remaining : list Appartement) : nat :=
  fst (fold_left (considerStop currentPoint)
                 (combine (seq 0 (List.length remaining)) remaining)
                 (0%nat, Infinity)).

(** [remaining.splice(index, 1)[0]] together with what is left of
    [remaining]; [None] when the index is out of range, where the code
    would go on to read a field of [undefined] and throw. *)
Fixpoint splice (index : nat) (remaining : list Appartement)
  : option (Appartement * list Appartement) :=
  match remaining, index with
  | [], _ => None
  | a :: rest, O => Some (a, rest)
  | a :: rest, S i =>
      match splice i rest with
      | Some (next, rest') => Some (next, a :: rest')
      | None => None
      end
  end.

(** The variables of [buildAgentRoute] that its [while] loop updates. *)
Module Tour.
Record t : Type := mk {
  remaining : list Appartement;
  etapes : list AgentRouteStep;
  totalDistance : Q;
  currentPoint : option Point;
  ordre : nat
}.
End Tour.

(** One iteration of the [while] loop; [None] when [splice] fails. *)
Definition visitNext `{JsMath} (st : Tour.t) : option Tour.t :=
  let bestIndex := nearestIndex (Tour.currentPoint st) (Tour.remaining st) in
  match splice bestIndex (Tour.remaining st) with
  | Some (next, remaining') =>
      let leg := distanceFrom (Tour.currentPoint st) (pointOf next) in
      Some (Tour.mk remaining'
                    (Tour.etapes st ++ [Step.mk next (Tour.ordre st) leg])
                    (Tour.totalDistance st + leg)
                    (Some (pointOf next))
                    (Tour.ordre st + 1)%nat)
  | None => None
  end.

(** [while (remaining.length > 0) { ... }], with a bound on the number of
    iterations; [None] when the bound is reached or an iteration fails. *)
Fixpoint routeLoop `{JsMath} (fuel : nat) (st : Tour.t) : option Tour.t :=
  match Tour.remaining st with
  | [] => Some st
  | _ :: _ =>
      match fuel with
      | O => None
      | S fuel' =>
          match visitNext st with
          | Some st' => routeLoop fuel' st'
          | None => None
          end
      end
  end.

Definition buildAgentRoute `{JsMath} (agentId : string) (appartements : list Appartement)
    (base : option Point) : option AgentRoute :=
  let visitables := List.filter visitable appartements in
  if (List.length visitables =? 0)%nat then Some (Route.mk agentId 0 [])
  else
    match routeLoop (List.length visitables)
                    (Tour.mk visitables [] 0 base 1%nat) with
    | Some st => Some (Route.mk agentId (Tour.totalDistance st) (Tour.etapes st))
    | None => None
    end.

(** ** AutoDistributor ([handleAutoDistribute] of [AppartementsList.tsx]) *)

Inductive FeedbackType : Type := success | error.

Module Feedback.
Record t : Type := mk { type : FeedbackType; message : string }.
End Feedback.
Abbreviation Feedback := Feedback.t.

(** Locations of summary objects, and the store that holds them. *)
Abbreviation loc := nat (only parsing).
Abbreviation heap := (gmap nat DistributionScore) (only parsing).

(** What a [Map] of summary objects shows when its objects are read in the
    store [h]. *)
Fixpoint deref (h : heap) (m : JsMap.t loc) : JsMap.t DistributionScore :=
  match m with
  | [] => []
  | (k, l) :: m' =>
      match h !! l with
      | Some s => (k, s) :: deref h m'
      | None => deref h m'
      end
  end.

(** The props and state of the component that the handler reads or writes,
    and the store of the objects they refer to. *)
Module UI.
Record t : Type := mk {
  agents : list Agent;
  appartements : list Appartement;
  scoreMap : JsMap.t loc;
  feedback : option Feedback;
  isAutoAssigning : bool;
  store : heap
}.
End UI.

Abbreviation Assignment := (Appartement * string)%type (only parsing).

(** [!appt.agent_id && appt.statut !== 'inactif']. *)
Definition unassignedActive (appt : Appartement) : bool :=
  negb (truthy (Appartement.agent_id appt)) &&
  negb (Statut_eqb (Appartement.statut appt) inactif).

(** [[...unassigned].sort((a, b) => score(b) - score(a))]: the stable sort
    by descending score.  [insertByScore a l] puts [a] in front of the
    first element whose score does not exceed that of [a]. *)
Fixpoint insertByScore (a : Appartement) (l : list Appartement) : list Appartement :=
  match l with
  | [] => [a]
  | b :: l' =>
      if Qlt_le_dec 0 (calculateWorkloadScore b - calculateWorkloadScore a)
      then b :: insertByScore a l'
      else a :: l
  end.

Definition sortByScoreDesc (l : list Appartement) : list Appartement :=
  fold_right insertByScore [] l.

(** The update of the summary object of the chosen agent. *)
Definition simulateAssign (score : DistributionScore) (appartement : Appartement)
  : DistributionScore :=
  let total_chambres := Score.total_chambres score + Appartement.nombre_chambres appartement in
  let total_surface := Score.total_surface score + Appartement.surface appartement in
  let total_distance := Score.total_distance score + Appartement.distance_base appartement in
  let total_difficulte := Score.total_difficulte score + Appartement.difficulte appartement in
  Score.mk (Score.agent_id score)
           total_chambres total_surface total_distance total_difficulte
           (Score.nombre_appartements score + 1)%nat
           (total_chambres * 10 + total_surface * (1 # 2) +
            total_distance * 2 + total_difficulte * 15).

(** The body of [sorted.forEach((appartement) => ...)]; the state is the
    store and the [assignments] array. *)
Definition simulateStep (agents : list Agent) (currentScores : JsMap.t loc)
    (st : heap * list Assignment) (appartement : Appartement) : heap * list Assignment :=
  let '(h, assignments) := st in
  match suggestOptimalAgent appartement agents (deref h currentScores) with
  | Some agentId =>
      if truthy (Some agentId) then
        let assignments' := (assignments ++ [(appartement, agentId)])%list in
        match JsMap.get agentId currentScores with
        | Some l =>
            match h !! l with
            | Some score => (<[l := simulateAssign score appartement]> h, assignments')
            | None => (h, assignments')
            end
        | None => (h, assignments')
        end
      else st
  | None => st
  end.

Definition noAgentsMessage : string := "Ajoutez des agents avant de distribuer.".
Definition nothingToAssignMessage : string :=
  "Aucun appartement disponible à assigner automatiquement.".
Definition noAssignmentMessage : string :=
  "Impossible de déterminer une affectation optimale.".

(** How the handler ends before it starts to commit: it returns early, or
    it enters the loop that commits the pairings one by one through the
    storage layer. *)
Inductive Outcome : Type :=
| Returned (st : UI.t)
| Commits (st : UI.t) (assignments : list Assignment).

Definition withFeedback (st : UI.t) (f : option Feedback) (busy : bool) (h : heap) : UI.t :=
  UI.mk (UI.agents st) (UI.appartements st) (UI.scoreMap st) f busy h.

Definition handleAutoDistribute (st : UI.t) : Outcome :=
  if (List.length (UI.agents st) =? 0)%nat then
    Returned (withFeedback st (Some (Feedback.mk error noAgentsMessage))
                           (UI.isAutoAssigning st) (UI.store st))
  else
    let unassigned := List.filter unassignedActive (UI.appartements st) in
    if (List.length unassigned =? 0)%nat then
      Returned (withFeedback st (Some (Feedback.mk error nothingToAssignMessage))
                             (UI.isAutoAssigning st) (UI.store st))
    else
      (* new Map(scoreMap): the keys and the references are copied, the
         objects are not *)
      let currentScores := UI.scoreMap st in
      let sorted := sortByScoreDesc unassigned in
      let '(h, assignments) :=
        fold_left (simulateStep (UI.agents st) currentScores) sorted (UI.store st, []) in
      if (List.length assignments =? 0)%nat then
        Returned (withFeedback st (Some (Feedback.mk error noAssignmentMessage)) false h)
      else
        Commits (withFeedback st None true h) assignments.

(** ** Notions used to state the properties *)

(** The left-to-right sum that [reduce((sum, x) => sum + x, 0)] and a
    running [+=] from [0] compute. *)
Definition Qsum (l : list Q) : Q := fold_left Qplus l 0.

(** The loop state of [suggestOptimalAgent] names a worker of the roster,
    at a finite distance from the average. *)
Definition chosenFrom (roster : list Agent) (st : option string * bound) : Prop :=
  exists w q, In w roster /\ st = (Some (Agent.id w), Fin q).

(** The unit's reference is truthy and is [k]. *)
Definition assignedTo (k : string) (appt : Appartement) : bool :=
  match Appartement.agent_id appt with
  | Some k' => truthy (Some k') && String.eqb k' k
  | None => false
  end.

(** The units that [calculateAgentScores] counts for the worker [k]. *)
Definition unitsOf (k : string) (appartements : list Appartement) : list Appartement :=
  List.filter (assignedTo k) appartements.

(** Some agent of the list has the id [k]. *)
Definition isAgentId (agents : list Agent) (k : string) : bool :=
  existsb (fun a => String.eqb (Agent.id a) k) agents.

(** The unit's reference is non-null and is the id of an agent. *)
Definition referencesAgent (agents : list Agent) (appt : Appartement) : bool :=
  match Appartement.agent_id appt with
  | Some k => isAgentId agents k
  | None => false
  end.

(** The sum of [nombre_appartements] over the summaries of a map. *)
Definition totalCount (scores : JsMap.t DistributionScore) : nat :=
  list_sum (List.map Score.nombre_appartements (JsMap.values scores)).

(** The unit is counted by the second loop of [calculateAgentScores] when
    that loop runs on [scores]. *)
Definition countedIn (scores : JsMap.t DistributionScore) (appt : Appartement) : bool :=
  match Appartement.agent_id appt with
  | Some k => truthy (Some k) && JsMap.has k scores
  | None => false
  end.




Definition stops (etapes : list AgentRouteStep) : list Appartement :=
  List.map Step.appartement etapes.

(** The pairings that the handler goes on to commit. *)
Definition pairings (o : Outcome) : list Assignment :=
  match o with
  | Returned _ => []
  | Commits _ assignments => assignments
  end.

(** The state in which the handler leaves the component. *)
Definition stateOf (o : Outcome) : UI.t :=
  match o with
  | Returned st => st
  | Commits st _ => st
  end.

(** ** Sample data *)

Definition mkAgent (id : string) (secteur : option string) : Agent :=
  Agent.mk id id "agent@example.org" secteur 0 "2025-11-11".

Definition mkUnit (id secteur : string) (chambres surface distance difficulte : Q)
    (agent : option string) (statut : Statut) : Appartement :=
  Appartement.mk id id "1 rue de la Paix" secteur chambres surface distance
                 None None difficulte agent statut "2025-11-11" "2025-11-11".

Definition alice : Agent := mkAgent "alice" (Some "Nord").
Definition bruno : Agent := mkAgent "bruno" None.

Definition studio : Appartement := mkUnit "studio" "Nord" 1 30 2 1 (Some "alice") assigne.
Definition duplex : Appartement := mkUnit "duplex" "Sud" 2 50 5 3 (Some "alice") assigne.
Definition loft : Appartement := mkUnit "loft" "Sud" 3 80 4 2 None disponible.
Definition atelier : Appartement := mkUnit "atelier" "Sud" 1 20 1 1 None disponible.

(** A unit whose reference is the empty string: not [null], yet falsy. *)
Definition orphelin : Appartement := mkUnit "orphelin" "Sud" 2 50 5 3 (Some "") disponible.

(** A rational stand-in for [Math], for running the definitions on sample
    inputs: small-angle values of the trigonometric functions and the
    identity for the square root.  No property below depends on it. *)
Definition sampleMath : JsMath :=
  {| Math_sqrt := fun x => x;
     Math_sin := fun x => x;
     Math_cos := fun _ => 1;
     Math_atan2 := fun y _ => y;
     Math_PI := 355 # 113 |}.

Definition located (a : Appartement) (lat lng : Q) : Appartement :=
  Appartement.mk (Appartement.id a) (Appartement.nom a) (Appartement.adresse a)
                 (Appartement.secteur a) (Appartement.nombre_chambres a)
                 (Appartement.surface a) (Appartement.distance_base a)
                 (Some lat) (Some lng) (Appartement.difficulte a)
                 (Appartement.agent_id a) (Appartement.statut a)
                 (Appartement.created_at a) (Appartement.updated_at a).

(** The state of the component once [loadAppartements] has stored the
    fetched units and the summaries computed from them: the [Map] of the
    state is a copy of the computed one and refers to the same objects,
    here allocated at [0], [1], ... in the order of the map. *)
Definition loadedState (agents : list Agent) (data : list Appartement) : UI.t :=
  let scores :=
    calculateAgentScores agents
      (List.filter (fun appt => truthy (Appartement.agent_id appt)) data) in
  let locs := seq 0 (List.length scores) in
  UI.mk agents data (combine (JsMap.keys scores) locs) None false
        (list_to_map (combine locs (JsMap.values scores))).

(** A summary with the balance score [x] and no other load. *)
Definition summary (id : string) (x : Q) : DistributionScore :=
  Score.mk id 0 0 0 0 0%nat x.

(** ** Further notions *)

(** The four attributes of a unit are non-negative. *)
Definition nonNegativeUnit (appt : Appartement) : Prop :=
  0 <= Appartement.nombre_chambres appt /\ 0 <= Appartement.surface appt /\
  0 <= Appartement.distance_base appt /\ 0 <= Appartement.difficulte appt.

(** The four totals of a summary are non-negative. *)
Definition nonNegativeSummary (s : DistributionScore) : Prop :=
  0 <= Score.total_chambres s /\ 0 <= Score.total_surface s /\
  0 <= Score.total_distance s /\ 0 <= Score.total_difficulte s.


(** The units that a list of pairings gives to the agent [k], in order. *)
Definition unitsPairedWith (k : string) (ps : list Assignment) : list Appartement :=
  List.map fst (List.filter (fun p => String.eqb (snd p) k) ps).

(** A state of the simulation of [handleAutoDistribute] that started from
    the store [h0]: the object of each key [k] of [currentScores] has
    received, in order, the units paired with [k] so far. *)
Definition simulated (currentScores : JsMap.t loc) (h0 : heap)
    (st : heap * list Assignment) : Prop :=
  forall k l s,
    JsMap.get k currentScores = Some l -> h0 !! l = Some s ->
    fst st !! l = Some (fold_left simulateAssign (unitsPairedWith k (snd st)) s).

(** The point from which the step after the steps [pre] is chosen: the
    last stop of [pre], or the base when [pre] is empty. *)
Definition departure (base : option Point) (pre : list AgentRouteStep) : option Point :=
  match rev pre with
  | s :: _ => Some (pointOf (Step.appartement s))
  | [] => base
  end.

(** The steps [tail] are a nearest-neighbour tour of [remaining] from the
    point [cp], numbered from [ord]: each step goes to a remaining unit
    that is at the least distance from the current point, records that
    distance as its leg, and the tour goes on from there. *)
Fixpoint nearestTour `{JsMath} (cp : option Point) (ord : nat)
    (remaining : list Appartement) (tail : list AgentRouteStep) : Prop :=
  match tail with
  | [] => remaining = []
  | s :: tail' =>
      Step.ordre s = ord /\
      Step.distanceDepuisPrecedent s = distanceFrom cp (pointOf (Step.appartement s)) /\
      (forall u, In u remaining ->
                 Step.distanceDepuisPrecedent s <= distanceFrom cp (pointOf u)) /\
      exists rest,
        Permutation remaining (Step.appartement s :: rest) /\
        nearestTour (Some (pointOf (Step.appartement s))) (ord + 1) rest tail'
  end.

(** The state of one pass over [remaining] after the units [seen]: the
    best index so far is that of a unit of [seen] at the least distance. *)
Definition leastSoFar `{JsMath} (cp : option Point) (seen : list Appartement)
    (st : nat * bound) : Prop :=
  exists a,
    nth_error seen (fst st) = Some a /\
    snd st = Fin (distanceFrom cp (pointOf a)) /\
    forall x, In x seen -> distanceFrom cp (pointOf a) <= distanceFrom cp (pointOf x).

(** ** The lists that [AppartementsList] derives from its units *)

(** [String.prototype.localeCompare], a function of the host. *)
Class JsLocale : Type := {
  localeCompare : string -> string -> Z
}.

Definition nonAssigneLabel : string := "Non assigné".
Definition inconnuLabel : string := "Inconnu".

(** [agents.find((a) => a.id === agentId)] followed by
    [agent?.nom || 'Inconnu']. *)
Definition nameOrInconnu (agents : list Agent) (agentId : string) : string :=
  match List.find (fun a => String.eqb (Agent.id a) agentId) agents with
  | Some agent => if String.eqb (Agent.nom agent) "" then inconnuLabel else Agent.nom agent
  | None => inconnuLabel
  end.

(** [getAgentName] of [AppartementsList]. *)
Definition getAgentName (agents : list Agent) (agentId : option string) : string :=
  match agentId with
  | Some k => if truthy (Some k) then nameOrInconnu agents k else nonAssigneLabel
  | None => nonAssigneLabel
  end.

(** [appartements.filter((appt) => !appt.agent_id)]. *)
Definition appartUnassigned (appartements : list Appartement) : list Appartement :=
  List.filter (fun appt => negb (truthy (Appartement.agent_id appt))) appartements.

(** The body of the loop that fills [groups]: a new key starts with an
    empty array, and the unit is pushed onto the array of its key.  The
    arrays of one call are fresh, one per key, so the push is the
    replacement of the value stored under the key. *)
Definition pushUnit (groups : JsMap.t (list Appartement)) (appt : Appartement)
  : JsMap.t (list Appartement) :=
  match Appartement.agent_id appt with
  | Some key =>
      let groups := if JsMap.has key groups then groups else JsMap.set key [] groups in
      match JsMap.get key groups with
      | Some list => JsMap.set key (list ++ [appt])%list groups
      | None => groups
      end
  | None => groups
  end.

(** [list.sort((a, b) => a.nom.localeCompare(b.nom))]: the stable sort for
    a comparator that is consistent, as [localeCompare] is.
    [insertByNom a l] puts [a] in front of the first element that the
    comparator does not put before [a]. *)
Fixpoint insertByNom `{JsLocale} (a : Appartement) (l : list Appartement) : list Appartement :=
  match l with
  | [] => [a]
  | b :: l' =>
      if (0 <? localeCompare (Appartement.nom a) (Appartement.nom b))%Z
      then b :: insertByNom a l'
      else a :: l
  end.

Definition sortByNom `{JsLocale} (l : list Appartement) : list Appartement :=
  fold_right insertByNom [] l.

Module Group.
Record t : Type := mk {
  agentId : string;
  agentName : string;
  appartements : list Appartement
}.
End Group.

(** [appartAssignedByAgent] of [AppartementsList]. *)
Definition appartAssignedByAgent `{JsLocale} (agents : list Agent)
    (appartements : list Appartement) : list Group.t :=
  let groups :=
    fold_left pushUnit
      (List.filter (fun appt => truthy (Appartement.agent_id appt)) appartements)
      JsMap.empty in
  List.map (fun '(agentId, list) =>
              Group.mk agentId (getAgentName agents (Some agentId)) (sortByNom list))
           groups.

(** ** The figures of [DistributionDashboard] *)

(** [Math.max(...scoresArray.map((s) => s.score_equilibre), 0)]. *)
Definition maxScore (scoresArray : list DistributionScore) : Q :=
  fold_right Qmax 0 (List.map Score.score_equilibre scoresArray).

(** [maxScore > 0 ? (score.score_equilibre / maxScore) * 100 : 0]. *)
Definition percentage (scoresArray : list DistributionScore) (score : DistributionScore) : Q :=
  if Qlt_le_dec 0 (maxScore scoresArray)
  then (Score.score_equilibre score / maxScore scoresArray) * 100
  else 0.

(** The units whose reference is exactly [k]. *)
Definition referring (k : string) (appartements : list Appartement) : list Appartement :=
  List.filter (fun appt => match Appartement.agent_id appt with
                           | Some k' => String.eqb k' k
                           | None => false
                           end) appartements.

(** A comparator for running [sortByNom] on sample inputs: the order of
    the lengths. *)
Definition sampleLocale : JsLocale :=
  {| localeCompare := fun a b => (Z.of_nat (String.length a) - Z.of_nat (String.length b))%Z |}.

(** The number of units in the arrays of a map of groups. *)
Definition groupedCount (groups : JsMap.t (list Appartement)) : nat :=
  list_sum (List.map (fun l => List.length l) (JsMap.values groups)).

(** ** The handlers and their environment *)

(** What a handler asks of its environment: the clock, the three writes
    that [updateAssignment] sends to the storage layer (each answers
    whether it reported an error), the reload and the notification of the
    parent, and the setters of the component state. *)
Inductive Call : Type -> Type :=
| Now : Call string
| UpdateAppartement (id : string) (agent_id : option string) (statut : Statut)
    (updated_at : string) : Call bool
| CloseHistorique (appartement_id : string) (date_fin : string) : Call bool
| InsertHistorique (appartement_id agent_id date_debut : string) (score_equilibre : Q)
  : Call bool
| LoadAppartements : Call unit
| OnUpdate : Call unit
| SetFeedback (f : option Feedback) : Call unit
| SetEditingId (id : option string) : Call unit
| SetIsAutoAssigning (b : bool) : Call unit.

(** A handler: it returns, or it makes a call and goes on with the answer. *)
Inductive Prog (R : Type) : Type :=
| Ret (r : R)
| Do {X : Type} (c : Call X) (k : X -> Prog R).
Arguments Ret {R} r.
Arguments Do {R X} c k.

Fixpoint bind {A B : Type} (p : Prog A) (f : A -> Prog B) : Prog B :=
  match p with
  | Ret a => f a
  | Do c k => Do c (fun x => bind (k x) f)
  end.

Declare Scope prog_scope.
Delimit Scope prog_scope with prog.
Notation "x <- p ;; q" := (bind p (fun x => q))
  (at level 100, p at next level, right associativity) : prog_scope.
Notation "p ;;; q" := (bind p (fun _ => q))
  (at level 100, right associativity) : prog_scope.

Definition call {X : Type} (c : Call X) : Prog X := Do c Ret.

(** A call with its answer. *)
Inductive Event : Type :=
| Ev {X : Type} (c : Call X) (x : X).

(** An environment answers each call, given what has happened so far. *)
Definition World : Type := forall X : Type, list Event -> Call X -> X.

(** The handler [p] run in the environment [w] after the events [log]:
    its result and the events at its end. *)
Fixpoint run {R : Type} (w : World) (log : list Event) (p : Prog R) : R * list Event :=
  match p with
  | Ret r => (r, log)
  | Do c k => let x := w _ log c in run w (log ++ [Ev c x])%list (k x)
  end.

Module Result.
Record t : Type := mk { success : bool; message : option string }.
End Result.

Definition updateFailedMessage : string := "Impossible de mettre à jour l'appartement.".

(** [updateAssignment] of [AppartementsList]. *)
Definition updateAssignment (appartement : Appartement) (agentId : option string)
  : Prog Result.t :=
  (now <- call Now ;;
   error <- call (UpdateAppartement (Appartement.id appartement) agentId
                    (if truthy agentId then assigne else disponible) now) ;;
   if (error : bool) then Ret (Result.mk false (Some updateFailedMessage))
   else
     call (CloseHistorique (Appartement.id appartement) now) ;;;
     match agentId with
     | Some k =>
         if truthy (Some k)
         then call (InsertHistorique (Appartement.id appartement) k now
                      (calculateWorkloadScore appartement)) ;;;
              Ret (Result.mk true None)
         else Ret (Result.mk true None)
     | None => Ret (Result.mk true None)
     end)%prog.

Definition assignedMessage : string := "Appartement assigné avec succès.".
Definition releasedMessage : string := "L'appartement a été remis en disponible.".
Definition assignFailedMessage : string := "Impossible d'assigner cet appartement.".

(** [handleAssignAgent] of [AppartementsList]. *)
Definition handleAssignAgent (appartements : list Appartement)
    (appartementId : string) (agentId : option string) : Prog unit :=
  match List.find (fun a => String.eqb (Appartement.id a) appartementId) appartements with
  | None => Ret tt
  | Some appartement =>
      (result <- updateAssignment appartement agentId ;;
       if Result.success result then
         call LoadAppartements ;;;
         call OnUpdate ;;;
         call (SetFeedback (Some (Feedback.mk success
                 (if truthy agentId then assignedMessage else releasedMessage)))) ;;;
         call (SetEditingId None)
       else
         call (SetFeedback (Some (Feedback.mk error
                 (if truthy (Result.message result)
                  then match Result.message result with Some m => m | None => "" end
                  else assignFailedMessage)))))%prog
  end.

Definition commitFailedMessage : string :=
  "Une erreur est survenue pendant la distribution automatique.".

(** The decimal writing of a count, as a template literal prints it. *)
Definition decimal (n : nat) : string := NilEmpty.string_of_uint (Nat.to_uint n).

Definition committedMessage (successCount : nat) : string :=
  decimal successCount ++ " appartement(s) ont été assignés automatiquement.".

(** The loop of [handleAutoDistribute] over [assignments]; its result is
    [(successCount, encounteredError)]. *)
Fixpoint commitLoop (assignments : list Assignment) (successCount : nat)
  : Prog (nat * bool) :=
  match assignments with
  | [] => Ret (successCount, false)
  | (appartement, agentId) :: rest =>
      (result <- updateAssignment appartement (Some agentId) ;;
       if Result.success result then commitLoop rest (successCount + 1)
       else
         call (SetFeedback (Some (Feedback.mk error commitFailedMessage))) ;;;
         Ret (successCount, true))%prog
  end.

(** The end of [handleAutoDistribute], from the loop that commits the
    pairings. *)
Definition commitAssignments (assignments : list Assignment) : Prog unit :=
  (st <- commitLoop assignments 0 ;;
   call LoadAppartements ;;;
   call OnUpdate ;;;
   (if negb (snd st) && (0 <? fst st)%nat
    then call (SetFeedback (Some (Feedback.mk success (committedMessage (fst st)))))
    else Ret tt) ;;;
   call (SetIsAutoAssigning false))%prog.

(** [handleAutoDistribute] with its calls: the calls of the part that
    ends in an [Outcome] are the writes to the state that the outcome
    shows, then come the commits. *)
Definition handleAutoDistributeCalls (st : UI.t) : Prog unit :=
  match handleAutoDistribute st with
  | Returned _ => Ret tt
  | Commits _ assignments => commitAssignments assignments
  end.

(** The writes to the units in a list of events, each with its answer. *)
Definition updateOf (e : Event) : list (string * option string * Statut * bool) :=
  match e with
  | Ev c x =>
      match c in Call T return T -> list (string * option string * Statut * bool) with
      | UpdateAppartement id agent statut _ => fun err => [(id, agent, statut, err)]
      | _ => fun _ => []
      end x
  end.

Definition updatesOf (log : list Event) : list (string * option string * Statut * bool) :=
  List.flat_map updateOf log.

(** The records added to the history in a list of events: unit, agent and
    score. *)
Definition insertOf (e : Event) : list (string * string * Q) :=
  match e with
  | Ev c _ =>
      match c with
      | InsertHistorique appartement_id agent_id _ score => [(appartement_id, agent_id, score)]
      | _ => []
      end
  end.

Definition insertsOf (log : list Event) : list (string * string * Q) :=
  List.flat_map insertOf log.

(** The units whose open records are closed in a list of events. *)
Definition closeOf (e : Event) : list string :=
  match e with
  | Ev c _ => match c with CloseHistorique appartement_id _ => [appartement_id] | _ => [] end
  end.

Definition closesOf (log : list Event) : list string := List.flat_map closeOf log.

(** The feedbacks set in a list of events. *)
Definition feedbackOf (e : Event) : list (option Feedback) :=
  match e with
  | Ev c _ => match c with SetFeedback f => [f] | _ => [] end
  end.

Definition feedbacksOf (log : list Event) : list (option Feedback) :=
  List.flat_map feedbackOf log.

(** The write that commits the pairing [p], with its answer. *)
Definition attempt (err : bool) (p : Assignment) : string * option string * Statut * bool :=
  (Appartement.id (fst p), Some (snd p),
   if truthy (Some (snd p)) then assigne else disponible, err).

(** The record that the history receives for the pairing [p]. *)
Definition recordOf (p : Assignment) : string * string * Q :=
  (Appartement.id (fst p), snd p, calculateWorkloadScore (fst p)).

(** An environment for running the handlers on sample inputs: the clock
    is stopped and a write fails when it is for the unit [failing]. *)
Definition sampleWorld (failing : string) : World :=
  fun X _ c =>
    match c in Call T return T with
    | Now => "2025-11-11T00:00:00.000Z"
    | UpdateAppartement id _ _ _ => String.eqb id failing
    | CloseHistorique _ _ => false
    | InsertHistorique _ _ _ _ => false
    | LoadAppartements => tt
    | OnUpdate => tt
    | SetFeedback _ => tt
    | SetEditingId _ => tt
    | SetIsAutoAssigning _ => tt
    end.

(** The write that commits the pairing [p] of [handleAutoDistribute], with
    its answer: the unit becomes [assigne] to the agent of the pairing. *)
Definition commitWrite (err : bool) (p : Assignment) : string * option string * Statut * bool :=
  (Appartement.id (fst p), Some (snd p), assigne, err).

(** Some write of the list was answered with an error. *)
Definition someFailed (updates : list (string * option string * Statut * bool)) : bool :=
  existsb (fun u => snd u) updates.

(** The unit of the pairing [p] once the write that commits [p] is done:
    it refers to the agent of [p] and is [assigne]. *)
Definition withAgent (p : Assignment) : Appartement :=
  let u := fst p in
  Appartement.mk (Appartement.id u) (Appartement.nom u) (Appartement.adresse u)
                 (Appartement.secteur u) (Appartement.nombre_chambres u)
                 (Appartement.surface u) (Appartement.distance_base u)
                 (Appartement.latitude u) (Appartement.longitude u)
                 (Appartement.difficulte u) (Some (snd p)) assigne
                 (Appartement.created_at u) (Appartement.updated_at u).

(** ** Well-formed identifiers *)

(** The ids of the storage layer are UUIDs (the columns [id] of the tables
    are of the type [uuid], and [agent_id] is a [uuid] that references
    [agents(id)]): the id of an agent is never the empty string, and the
    reference of a unit is [null] or such an id. *)
Definition wellFormedId (agent : Agent) : Prop := Agent.id agent <> "".

Definition wellFormedReference (appt : Appartement) : Prop :=
  Appartement.agent_id appt <> Some "".

(** ** The engine in double precision

    [calculateWorkloadScore], [calculateAgentScores] and
    [suggestOptimalAgent] once more, with a [number] read as an IEEE 754
    binary64 value ([PrimFloat.float]): every sum and product is rounded,
    a product can overflow to [infinity], and a comparison with [nan] is
    false.  The properties that depend on rounding or on overflow are
    stated over these definitions.  The count of units stays a natural
    number, and the length of an array becomes a float through
    [ofLength]; both are exact for every array that fits in memory. *)

Module Ieee.
Local Open Scope float_scope.

Abbreviation number := PrimFloat.float.

Module Appartement.
Record t : Type := mk {
  id : string;
  nom : string;
  adresse : string;
  secteur : string;
  nombre_chambres : number;
  surface : number;
  distance_base : number;
  latitude : option number;
  longitude : option number;
  difficulte : number;
  agent_id : option string;
  statut : Statut;
  created_at : string;
  updated_at : string
}.
End Appartement.

Module Score.
Record t : Type := mk {
  agent_id : string;
  total_chambres : number;
  total_surface : number;
  total_distance : number;
  total_difficulte : number;
  nombre_appartements : nat;
  score_equilibre : number
}.
End Score.

Abbreviation Appartement := Appartement.t.
Abbreviation DistributionScore := Score.t.

(** [array.length] as a number. *)
Definition ofLength (n : nat) : number :=
  PrimFloat.of_uint63 (Uint63.of_Z (Z.of_nat n)).

(** [x || 0]: the falsy numbers are [0], [-0] and [NaN]. *)
Definition orZero (x : number) : number :=
  if (x =? 0) || PrimFloat.is_nan x then 0 else x.

Definition chambreWeight : number := 10.
Definition surfaceWeight : number := 0.5.
Definition distanceWeight : number := 2.
Definition difficulteWeight : number := 15.

Definition calculateWorkloadScore (appartement : Appartement) : number :=
  Appartement.nombre_chambres appartement * chambreWeight +
  Appartement.surface appartement * surfaceWeight +
  Appartement.distance_base appartement * distanceWeight +
  Appartement.difficulte appartement * difficulteWeight.

Definition zeroScore (id : string) : DistributionScore :=
  Score.mk id 0 0 0 0 0%nat 0.

(** First loop of [calculateAgentScores]: one zero summary per agent. *)
Definition initScores (agents : list Agent) : JsMap.t DistributionScore :=
  fold_left (fun scores agent => JsMap.set (Agent.id agent) (zeroScore (Agent.id agent)) scores)
            agents JsMap.empty.

(** The body of the second loop: the four totals and the count grow, and
    [score_equilibre] is overwritten with the score of the unit alone. *)
Definition addUnit (score : DistributionScore) (appt : Appartement) : DistributionScore :=
  Score.mk (Score.agent_id score)
           (Score.total_chambres score + Appartement.nombre_chambres appt)
           (Score.total_surface score + Appartement.surface appt)
           (Score.total_distance score + Appartement.distance_base appt)
           (Score.total_difficulte score + Appartement.difficulte appt)
           (Score.nombre_appartements score + 1)%nat
           (calculateWorkloadScore appt).

(** One iteration of the second loop, under the guard
    [appt.agent_id && scores.has(appt.agent_id)]. *)
Definition accumulate (scores : JsMap.t DistributionScore) (appt : Appartement)
  : JsMap.t DistributionScore :=
  match Appartement.agent_id appt with
  | Some k =>
      if truthy (Some k) && JsMap.has k scores then
        match JsMap.get k scores with
        | Some score => JsMap.set k (addUnit score appt) scores
        | None => scores
        end
      else scores
  | None => scores
  end.

(** The weight formula applied to the totals of a summary. *)
Definition weighTotals (score : DistributionScore) : number :=
  Score.total_chambres score * chambreWeight +
  Score.total_surface score * surfaceWeight +
  Score.total_distance score * distanceWeight +
  Score.total_difficulte score * difficulteWeight.

(** The body of the third loop. *)
Definition rescore (score : DistributionScore) : DistributionScore :=
  Score.mk (Score.agent_id score)
           (Score.total_chambres score)
           (Score.total_surface score)
           (Score.total_distance score)
           (Score.total_difficulte score)
           (Score.nombre_appartements score)
           (weighTotals score).

Definition calculateAgentScores (agents : list Agent) (appartements : list Appartement)
  : JsMap.t DistributionScore :=
  let scores := initScores agents in
  let scores := fold_left accumulate appartements scores in
  List.map (fun '(k, score) => (k, rescore score)) scores.

(** [Array.from(currentScores.values()).reduce(...) / agents.length]. *)
Definition avgScore (agents : list Agent) (currentScores : JsMap.t DistributionScore)
  : number :=
  fold_left (fun sum s => sum + Score.score_equilibre s) (JsMap.values currentScores) 0
  / ofLength (List.length agents).

(** [agent.secteur_preference === appartement.secteur ? -20 : 0]. *)
Definition secteurBonus (agent : Agent) (appartement : Appartement) : number :=
  match Agent.secteur_preference agent with
  | Some p => if String.eqb p (Appartement.secteur appartement) then -20 else 0
  | None => 0
  end.

(** [currentScores.get(agent.id)?.score_equilibre || 0]. *)
Definition agentScore (agent : Agent) (currentScores : JsMap.t DistributionScore)
  : number :=
  match JsMap.get (Agent.id agent) currentScores with
  | Some s => orZero (Score.score_equilibre s)
  | None => 0
  end.

(** The constant [scoreDiff] of the loop body. *)
Definition scoreDiff (appartement : Appartement) (agents : list Agent)
    (currentScores : JsMap.t DistributionScore) (agent : Agent) : number :=
  let apptScore := calculateWorkloadScore appartement in
  let newScore := agentScore agent currentScores + apptScore + secteurBonus agent appartement in
  PrimFloat.abs (newScore - avgScore agents currentScores).

(** The body of the loop over the agents; the state is
    [(bestAgent, lowestScoreDiff)]. *)
Definition considerAgent (appartement : Appartement) (agents : list Agent)
    (currentScores : JsMap.t DistributionScore)
    (st : option string * number) (agent : Agent) : option string * number :=
  let scoreDiff := scoreDiff appartement agents currentScores agent in
  if scoreDiff <? snd st then (Some (Agent.id agent), scoreDiff) else st.

Definition suggestOptimalAgent (appartement : Appartement) (agents : list Agent)
    (currentScores : JsMap.t DistributionScore) : option string :=
  if (List.length agents =? 0)%nat then None
  else fst (fold_left (considerAgent appartement agents currentScores) agents
                      (None, PrimFloat.infinity)).

(** *** Notions used to state the properties *)

(** The left-to-right sum from [0]. *)
Definition sum (l : list number) : number := fold_left PrimFloat.add l 0.

(** The unit's reference is truthy and is [k]. *)
Definition assignedTo (k : string) (appt : Appartement) : bool :=
  match Appartement.agent_id appt with
  | Some k' => truthy (Some k') && String.eqb k' k
  | None => false
  end.

(** The units that [calculateAgentScores] counts for the worker [k]. *)
Definition unitsOf (k : string) (appartements : list Appartement) : list Appartement :=
  List.filter (assignedTo k) appartements.

(** The load that the worker would carry with the unit: its balance score
    (or [0]), the score of the unit and the sector bonus. *)
Definition newScore (appartement : Appartement)
    (currentScores : JsMap.t DistributionScore) (agent : Agent) : number :=
  agentScore agent currentScores + calculateWorkloadScore appartement
  + secteurBonus agent appartement.





(** The distance [d] is below [Infinity]: it is neither [Infinity] nor
    [NaN]. *)
Definition reachable (d : number) : bool := d <? PrimFloat.infinity.

(** The state of the loop of [suggestOptimalAgent] after the agents
    [seen].  Either no agent has been kept, the bound is still [Infinity]
    and no agent of [seen] is at a distance below [Infinity]; or the agent
    kept is one of [seen], the bound is its distance, which is below
    [Infinity], no agent before it is at a distance less than or equal to
    its own, and no agent after it is at a smaller distance. *)
Definition firstNearest (appartement : Appartement) (agents : list Agent)
    (currentScores : JsMap.t DistributionScore)
    (seen : list Agent) (st : option string * number) : Prop :=
  match fst st with
  | None =>
      snd st = PrimFloat.infinity /\
      forall x, In x seen -> reachable (scoreDiff appartement agents currentScores x) = false
  | Some w =>
      exists pre a post,
        seen = (pre ++ a :: post)%list /\
        w = Agent.id a /\
        snd st = scoreDiff appartement agents currentScores a /\
        reachable (scoreDiff appartement agents currentScores a) = true /\
        (forall x, In x pre ->
                   (scoreDiff appartement agents currentScores x
                    <=? scoreDiff appartement agents currentScores a) = false) /\
        (forall x, In x post ->
                   (scoreDiff appartement agents currentScores x
                    <? scoreDiff appartement agents currentScores a) = false)
  end.

(** *** Sample data *)

Definition mkUnit (id secteur : string) (chambres surface distance difficulte : number)
    (agent : option string) (statut : Statut) : Appartement :=
  Appartement.mk id id "1 rue de la Paix" secteur chambres surface distance
                 None None difficulte agent statut "2025-11-11" "2025-11-11".

Definition studio : Appartement := mkUnit "studio" "Nord" 1 30 2 1 (Some "alice") assigne.
Definition duplex : Appartement := mkUnit "duplex" "Sud" 2 50 5 3 (Some "alice") assigne.
Definition loft : Appartement := mkUnit "loft" "Sud" 3 80 4 2 None disponible.



(** A summary with the balance score [x] and no other load. *)
Definition summary (id : string) (x : number) : DistributionScore :=
  Score.mk id 0 0 0 0 0%nat x.
End Ieee.

(** ** Tactics *)

(** Case analysis on the comparisons of exponents and mantissas that the
    comparison of two binary64 values unfolds to. *)
Ltac order_cases :=
  repeat match goal with
         | |- context [Z.compare ?x ?y] => destruct (Z.compare_spec x y); subst
         | |- context [Pos.compare ?x ?y] => destruct (Pos.compare_spec x y); subst
         end;
  cbn; try discriminate; try reflexivity; try lia.

(** * Properties *)

(** ** Facts about [JsMap] *)

Module JsMapFacts.
Section Facts.
Context {V : Type}.
Implicit Types (m : JsMap.t V) (k : string) (v : V).

Lemma get_set_eq m k v : JsMap.get k (JsMap.set k v m) = Some v.
Proof.
  induction m as [| [k' v'] m IH]; cbn.
  - now rewrite String.eqb_refl.
  - destruct (String.eqb k k') eqn:E; cbn.
    + now rewrite String.eqb_refl.
    + now rewrite E.
Qed.

Lemma get_set_ne m k k' v : k <> k' -> JsMap.get k' (JsMap.set k v m) = JsMap.get k' m.
Proof.
  intros Hne. induction m as [| [k0 v0] m IH]; cbn.
  - destruct (String.eqb_spec k' k); [congruence | reflexivity].
  - destruct (String.eqb_spec k k0) as [-> | Hk]; cbn.
    + destruct (String.eqb_spec k' k0); [congruence | reflexivity].
    + destruct (String.eqb_spec k' k0); [reflexivity | exact IH].
Qed.

Lemma get_set m k k' v :
  JsMap.get k' (JsMap.set k v m) = if String.eqb k' k then Some v else JsMap.get k' m.
Proof.
  destruct (String.eqb_spec k' k) as [-> | Hne].
  - apply get_set_eq.
  - apply get_set_ne. congruence.
Qed.

Lemma has_keys m k : JsMap.has k m = existsb (String.eqb k) (JsMap.keys m).
Proof.
  unfold JsMap.has. induction m as [| [k' v'] m IH]; cbn; [reflexivity |].
  destruct (String.eqb k k'); [reflexivity | exact IH].
Qed.

Lemma get_none_keys m k : JsMap.get k m = None <-> ~ In k (JsMap.keys m).
Proof.
  induction m as [| [k' v'] m IH]; cbn.
  - tauto.
  - destruct (String.eqb_spec k k') as [-> | Hne].
    + split; [discriminate | tauto].
    + rewrite IH. split; [intros H [E | H']; [congruence | tauto] | tauto].
Qed.

Lemma keys_set_present m k v v0 :
  JsMap.get k m = Some v0 -> JsMap.keys (JsMap.set k v m) = JsMap.keys m.
Proof.
  induction m as [| [k' v'] m IH]; cbn; [discriminate |].
  destruct (String.eqb_spec k k') as [-> | Hne]; cbn.
  - reflexivity.
  - intros H. f_equal. now apply IH.
Qed.

Lemma keys_set_absent m k v :
  JsMap.get k m = None -> JsMap.keys (JsMap.set k v m) = (JsMap.keys m ++ [k])%list.
Proof.
  induction m as [| [k' v'] m IH]; cbn; [reflexivity |].
  destruct (String.eqb_spec k k') as [-> | Hne]; cbn.
  - discriminate.
  - intros H. f_equal. now apply IH.
Qed.

Lemma wf_set m k v : JsMap.wf m -> JsMap.wf (JsMap.set k v m).
Proof.
  unfold JsMap.wf. intros Hwf.
  destruct (JsMap.get k m) as [v0 |] eqn:E.
  - now rewrite (keys_set_present m k v v0 E).
  - rewrite (keys_set_absent m k v E).
    apply NoDup_app; repeat split.
    + assumption.
    + constructor; [simpl; tauto | constructor].
    + intros x Hx [<- | []]. now apply get_none_keys in E.
Qed.

Lemma in_keys_set m k k' v :
  In k' (JsMap.keys (JsMap.set k v m)) <-> k' = k \/ In k' (JsMap.keys m).
Proof.
  destruct (JsMap.get k m) as [v0 |] eqn:E.
  - rewrite (keys_set_present m k v v0 E). split; [tauto |].
    intros [-> | H]; [| assumption].
    destruct (in_dec String.string_dec k (JsMap.keys m)) as [Hin | Hnin];
      [assumption |].
    apply get_none_keys in Hnin. congruence.
  - rewrite (keys_set_absent m k v E), in_app_iff. simpl. intuition.
Qed.
End Facts.

Lemma get_map {V W : Type} (f : V -> W) (m : JsMap.t V) (k : string) :
  JsMap.get k (List.map (fun '(k', v) => (k', f v)) m) = option_map f (JsMap.get k m).
Proof.
  induction m as [| [k' v'] m IH]; cbn; [reflexivity |].
  destruct (String.eqb k k'); [reflexivity | exact IH].
Qed.

Lemma keys_map {V W : Type} (f : V -> W) (m : JsMap.t V) :
  JsMap.keys (List.map (fun '(k', v) => (k', f v)) m) = JsMap.keys m.
Proof.
  unfold JsMap.keys. rewrite List.map_map. apply List.map_ext. now intros [k v].
Qed.
End JsMapFacts.

(** ** Sums of rationals *)

Lemma fold_Qplus_shift (l : list Q) (a : Q) : fold_left Qplus l a == a + Qsum l.
Proof.
  unfold Qsum. revert a. induction l as [| x l IH]; intros a; cbn [fold_left].
  - ring.
  - rewrite (IH (a + x)), (IH (0 + x)). ring.
Qed.

Lemma Qsum_cons (x : Q) (l : list Q) : Qsum (x :: l) == x + Qsum l.
Proof. unfold Qsum at 1. cbn [fold_left]. rewrite fold_Qplus_shift. ring. Qed.

Lemma Qsum_app (l1 l2 : list Q) : Qsum (l1 ++ l2) == Qsum l1 + Qsum l2.
Proof.
  unfold Qsum at 1. rewrite fold_left_app, fold_Qplus_shift. reflexivity.
Qed.

(** ** The definitions on sample inputs *)

(** The unit with 2 rooms, 50 m2, 5 km and difficulty 3 weighs 100. *)
Example calculateWorkloadScore_duplex : calculateWorkloadScore duplex == 100.
Proof. reflexivity. Qed.

(** Two units of [alice] among three: the totals, the count and the score. *)
Example calculateAgentScores_sample :
  List.map (fun '(k, s) => (k, Score.nombre_appartements s, Qred (Score.score_equilibre s)))
           (calculateAgentScores [alice; bruno] [studio; loft; duplex])
  = [("alice", 2%nat, 144); ("bruno", 0%nat, 0)].
Proof. reflexivity. Qed.

(** The idle agent is the one whose load lands closest to the average. *)
Example suggestOptimalAgent_sample :
  suggestOptimalAgent loft [alice; bruno]
    (calculateAgentScores [alice; bruno] [studio; loft; duplex]) = Some "bruno".
Proof. reflexivity. Qed.

(** From a base next to [studio], the route visits [studio] before
    [duplex] although [duplex] comes first in the input. *)
Example buildAgentRoute_sample :
  option_map (fun r => List.map (fun e => (Appartement.id (Step.appartement e), Step.ordre e))
                                (Route.etapes r))
             (@buildAgentRoute sampleMath "alice"
                [located duplex 49 3; loft; located studio (481 # 10) (21 # 10)]
                (Some (Point.mk 48 2)))
  = Some [("studio", 1%nat); ("duplex", 2%nat)].
Proof. vm_compute. reflexivity. Qed.

(** ** LoadAggregator: the summaries of [calculateAgentScores] *)

Section Aggregator.
Implicit Types (scores : JsMap.t DistributionScore) (appt : Appartement) (k : string).

Lemma initScores_get_from (agents : list Agent) scores k :
  JsMap.get k (fold_left (fun scores agent =>
                 JsMap.set (Agent.id agent) (zeroScore (Agent.id agent)) scores)
               agents scores)
  = if isAgentId agents k then Some (zeroScore k) else JsMap.get k scores.
Proof.
  revert scores. induction agents as [| a agents IH]; intros scores; cbn [fold_left];
    [reflexivity |].
  rewrite IH, JsMapFacts.get_set. cbn [isAgentId existsb].
  fold (isAgentId agents k). rewrite (String.eqb_sym (Agent.id a) k).
  destruct (isAgentId agents k); [now rewrite orb_true_r |].
  rewrite orb_false_r.
  destruct (String.eqb_spec k (Agent.id a)) as [-> | _]; reflexivity.
Qed.

Lemma initScores_get (agents : list Agent) k :
  JsMap.get k (initScores agents)
  = if isAgentId agents k then Some (zeroScore k) else None.
Proof. unfold initScores. now rewrite initScores_get_from. Qed.

Lemma initScores_wf (agents : list Agent) : JsMap.wf (initScores agents).
Proof.
  unfold initScores.
  assert (H : JsMap.wf (@JsMap.empty DistributionScore)) by constructor.
  revert H. generalize (@JsMap.empty DistributionScore).
  induction agents as [| a agents IH]; intros scores H; cbn [fold_left];
    [assumption |].
  apply IH. now apply JsMapFacts.wf_set.
Qed.

Lemma isAgentId_In (agents : list Agent) k :
  isAgentId agents k = true <-> In k (List.map Agent.id agents).
Proof.
  unfold isAgentId. rewrite existsb_exists, in_map_iff.
  split; intros (a & H1 & H2).
  - exists a. split; [now apply String.eqb_eq | assumption].
  - exists a. split; [assumption | now apply String.eqb_eq].
Qed.

Lemma initScores_keys (agents : list Agent) k :
  In k (JsMap.keys (initScores agents)) <-> In k (List.map Agent.id agents).
Proof.
  rewrite <- isAgentId_In.
  pose proof (JsMapFacts.get_none_keys (initScores agents) k) as Hn.
  rewrite initScores_get in Hn.
  destruct (isAgentId agents k).
  - split; [reflexivity | intros _].
    destruct (in_dec String.string_dec k (JsMap.keys (initScores agents))) as [Hin | Hnin];
      [assumption |].
    apply Hn in Hnin. discriminate.
  - split; [intros Hin | discriminate]. exfalso. now apply Hn.
Qed.

Lemma initScores_zero (agents : list Agent) :
  Forall (fun s => Score.nombre_appartements s = 0%nat) (JsMap.values (initScores agents)).
Proof.
  unfold initScores.
  assert (H : Forall (fun s => Score.nombre_appartements s = 0%nat)
                     (JsMap.values (@JsMap.empty DistributionScore))) by constructor.
  revert H. generalize (@JsMap.empty DistributionScore).
  induction agents as [| a agents IH]; intros scores H; cbn [fold_left];
    [assumption |].
  apply IH. clear IH.
  induction scores as [| [k' v'] scores IHs]; cbn.
  - repeat constructor.
  - inversion H; subst.
    destruct (String.eqb (Agent.id a) k'); cbn.
    + constructor; [reflexivity | assumption].
    + constructor; [assumption | now apply IHs].
Qed.

(** The entry of [k] after one iteration of the second loop. *)
Lemma accumulate_get scores appt k :
  JsMap.get k (accumulate scores appt)
  = if assignedTo k appt
    then option_map (fun s => addUnit s appt) (JsMap.get k scores)
    else JsMap.get k scores.
Proof.
  unfold accumulate, assignedTo, JsMap.has.
  destruct (Appartement.agent_id appt) as [k' |]; [| reflexivity].
  destruct (truthy (Some k')); cbn [andb]; [| reflexivity].
  destruct (JsMap.get k' scores) as [s |] eqn:E.
  - rewrite JsMapFacts.get_set, (String.eqb_sym k' k).
    destruct (String.eqb_spec k k') as [-> | _]; [| reflexivity].
    now rewrite E.
  - destruct (String.eqb_spec k' k) as [<- | _]; [| reflexivity].
    now rewrite E.
Qed.

(** The entry of [k] after the second loop: the units of [k] have been
    added to its summary one by one, in the order of the input. *)
Lemma accumulate_fold_get (appartements : list Appartement) scores k :
  JsMap.get k (fold_left accumulate appartements scores)
  = option_map (fun s => fold_left addUnit (unitsOf k appartements) s)
               (JsMap.get k scores).
Proof.
  revert scores. induction appartements as [| a l IH]; intros scores; cbn [fold_left].
  - now destruct (JsMap.get k scores).
  - rewrite IH, accumulate_get. unfold unitsOf. cbn [List.filter].
    destruct (assignedTo k a); [| reflexivity].
    now destruct (JsMap.get k scores).
Qed.

Lemma accumulate_keys scores appt :
  JsMap.keys (accumulate scores appt) = JsMap.keys scores.
Proof.
  unfold accumulate.
  destruct (Appartement.agent_id appt) as [k' |]; [| reflexivity].
  destruct (truthy (Some k') && JsMap.has k' scores); [| reflexivity].
  destruct (JsMap.get k' scores) as [s |] eqn:E; [| reflexivity].
  now apply JsMapFacts.keys_set_present with (v0 := s).
Qed.

Lemma accumulate_fold_keys (appartements : list Appartement) scores :
  JsMap.keys (fold_left accumulate appartements scores) = JsMap.keys scores.
Proof.
  revert scores. induction appartements as [| a l IH]; intros scores; cbn [fold_left];
    [reflexivity |].
  now rewrite IH, accumulate_keys.
Qed.

(** What the second loop leaves in a summary that started at zero. *)
Lemma addUnit_fold_totals (l : list Appartement) (s : DistributionScore) :
  let s' := fold_left addUnit l s in
  Score.agent_id s' = Score.agent_id s /\
  Score.total_chambres s'
    = fold_left Qplus (List.map Appartement.nombre_chambres l) (Score.total_chambres s) /\
  Score.total_surface s'
    = fold_left Qplus (List.map Appartement.surface l) (Score.total_surface s) /\
  Score.total_distance s'
    = fold_left Qplus (List.map Appartement.distance_base l) (Score.total_distance s) /\
  Score.total_difficulte s'
    = fold_left Qplus (List.map Appartement.difficulte l) (Score.total_difficulte s) /\
  Score.nombre_appartements s' = (Score.nombre_appartements s + List.length l)%nat.
Proof.
  revert s. induction l as [| a l IH]; intros s; cbn [fold_left List.map List.length].
  - repeat split; lia.
  - destruct (IH (addUnit s a)) as (H0 & H1 & H2 & H3 & H4 & H5).
    cbn zeta. rewrite H0, H1, H2, H3, H4, H5. cbn.
    repeat split; lia.
Qed.

Lemma totalCount_set scores k (s v : DistributionScore) :
  JsMap.get k scores = Some s ->
  (totalCount (JsMap.set k v scores) + Score.nombre_appartements s
   = totalCount scores + Score.nombre_appartements v)%nat.
Proof.
  unfold totalCount, JsMap.values.
  induction scores as [| [k' v'] scores IH]; cbn; [discriminate |].
  destruct (String.eqb k k'); cbn.
  - intros [= ->]. lia.
  - intros H. specialize (IH H). unfold list_sum in *. lia.
Qed.

Lemma totalCount_accumulate scores appt :
  totalCount (accumulate scores appt)
  = (totalCount scores + if countedIn scores appt then 1 else 0)%nat.
Proof.
  unfold accumulate, countedIn.
  destruct (Appartement.agent_id appt) as [k' |]; [| lia].
  destruct (truthy (Some k') && JsMap.has k' scores) eqn:Hc; [| lia].
  unfold JsMap.has in Hc.
  destruct (JsMap.get k' scores) as [s |] eqn:E.
  - pose proof (totalCount_set scores k' s (addUnit s appt) E) as H.
    cbn [addUnit Score.nombre_appartements] in H. lia.
  - now rewrite andb_false_r in Hc.
Qed.

Lemma countedIn_keys scores scores' appt :
  JsMap.keys scores' = JsMap.keys scores ->
  countedIn scores' appt = countedIn scores appt.
Proof.
  intros H. unfold countedIn.
  destruct (Appartement.agent_id appt) as [k |]; [| reflexivity].
  now rewrite !JsMapFacts.has_keys, H.
Qed.

Lemma totalCount_fold (appartements : list Appartement) scores :
  totalCount (fold_left accumulate appartements scores)
  = (totalCount scores + List.length (List.filter (countedIn scores) appartements))%nat.
Proof.
  revert scores. induction appartements as [| a l IH]; intros scores;
    cbn [fold_left List.filter].
  - cbn. lia.
  - rewrite IH, totalCount_accumulate.
    rewrite (List.filter_ext (countedIn (accumulate scores a)) (countedIn scores)).
    + destruct (countedIn scores a); cbn [List.length]; lia.
    + intros x. apply countedIn_keys, accumulate_keys.
Qed.

Lemma totalCount_rescore scores :
  totalCount (List.map (fun '(k, score) => (k, rescore score)) scores) = totalCount scores.
Proof.
  unfold totalCount, JsMap.values. rewrite !List.map_map. f_equal.
  apply List.map_ext. now intros [k s].
Qed.

Lemma totalCount_zero scores :
  Forall (fun s => Score.nombre_appartements s = 0%nat) (JsMap.values scores) ->
  totalCount scores = 0%nat.
Proof.
  unfold totalCount, list_sum. induction 1 as [| s l Hs Hl IH]; cbn [List.map fold_right];
    [reflexivity |].
  now rewrite Hs, IH.
Qed.

Lemma countedIn_initScores (agents : list Agent) appt :
  countedIn (initScores agents) appt
  = truthy (Appartement.agent_id appt) && referencesAgent agents appt.
Proof.
  unfold countedIn, referencesAgent, JsMap.has.
  destruct (Appartement.agent_id appt) as [k |]; [| reflexivity].
  rewrite initScores_get. now destruct (isAgentId agents k).
Qed.
Lemma initScores_keys_from (agents : list Agent) scores :
  NoDup (JsMap.keys scores ++ List.map Agent.id agents) ->
  JsMap.keys (fold_left (fun scores agent =>
                 JsMap.set (Agent.id agent) (zeroScore (Agent.id agent)) scores)
               agents scores)
  = (JsMap.keys scores ++ List.map Agent.id agents)%list.
Proof.
  revert scores. induction agents as [| a agents IH]; intros scores Hnd; cbn [fold_left List.map].
  - now rewrite app_nil_r.
  - assert (Habsent : JsMap.get (Agent.id a) scores = None).
    { apply JsMapFacts.get_none_keys. intros Hin.
      apply NoDup_remove_2 in Hnd. apply Hnd, in_app_iff. now left. }
    pose proof (JsMapFacts.keys_set_absent scores (Agent.id a) (zeroScore (Agent.id a)) Habsent)
      as Hk.
    rewrite IH; rewrite Hk, <- app_assoc; [reflexivity | exact Hnd].
Qed.

End Aggregator.

(** ** AssignmentAdvisor in exact arithmetic: the agent kept is of the roster *)

Section Advisor.
Variable appartement : Appartement.
Variable agents : list Agent.
Variable currentScores : JsMap.t DistributionScore.

Lemma considerAgent_first (roster : list Agent) (b : option string) (a : Agent) :
  In a roster ->
  chosenFrom roster (considerAgent appartement agents currentScores (b, Infinity) a).
Proof.
  intros Ha. unfold considerAgent. cbn [snd below].
  eexists a, _. split; [assumption | reflexivity].
Qed.

Lemma considerAgent_keeps (roster : list Agent) (st : option string * bound) (a : Agent) :
  In a roster -> chosenFrom roster st ->
  chosenFrom roster (considerAgent appartement agents currentScores st a).
Proof.
  intros Ha Hst. unfold considerAgent.
  destruct (below _ (snd st)); [| assumption].
  eexists a, _. split; [assumption | reflexivity].
Qed.

Lemma considerAgent_fold (roster l : list Agent) (st : option string * bound) :
  (forall a, In a l -> In a roster) -> chosenFrom roster st ->
  chosenFrom roster (fold_left (considerAgent appartement agents currentScores) l st).
Proof.
  revert st. induction l as [| a l IH]; intros st Hl Hst; cbn [fold_left].
  - assumption.
  - apply IH.
    + intros x Hx. apply Hl. now right.
    + apply considerAgent_keeps; [apply Hl; now left | assumption].
Qed.

Lemma suggestOptimalAgent_cons (a : Agent) (rest : list Agent) :
  agents = a :: rest ->
  exists w, In w agents /\
            suggestOptimalAgent appartement agents currentScores = Some (Agent.id w).
Proof.
  intros E. unfold suggestOptimalAgent.
  assert (Hlen : (List.length agents =? 0)%nat = false) by now rewrite E.
  rewrite Hlen.
  assert (Hfold : fold_left (considerAgent appartement agents currentScores) agents (None, Infinity)
                  = fold_left (considerAgent appartement agents currentScores) rest
                      (considerAgent appartement agents currentScores (None, Infinity) a)).
  { now rewrite E at 2. }
  rewrite Hfold.
  destruct (considerAgent_fold agents rest
              (considerAgent appartement agents currentScores (None, Infinity) a))
    as (w & q & Hw & Heq).
  - intros x Hx. rewrite E. now right.
  - apply considerAgent_first. rewrite E. now left.
  - exists w. split; [assumption |]. now rewrite Heq.
Qed.
End Advisor.

(** ** LoadAggregator: one summary per agent *)

(** [calculateAgentScores] returns one summary per id of an input agent,
    stored under that id and carrying it, and the sum of
    [nombre_appartements] over the summaries is the number of input units
    whose reference is truthy and is the id of an input agent. *)
Lemma calculateAgentScores_census (agents : list Agent) (appartements : list Appartement) :
  JsMap.wf (calculateAgentScores agents appartements) /\
  (forall k, In k (JsMap.keys (calculateAgentScores agents appartements))
             <-> In k (List.map Agent.id agents)) /\
  (forall a, In a agents ->
             exists s, JsMap.get (Agent.id a) (calculateAgentScores agents appartements) = Some s /\
                       Score.agent_id s = Agent.id a) /\
  totalCount (calculateAgentScores agents appartements)
  = List.length (List.filter (fun appt => truthy (Appartement.agent_id appt) &&
                                          referencesAgent agents appt) appartements).
Proof.
  unfold calculateAgentScores. cbn zeta.
  assert (Hkeys : JsMap.keys (List.map (fun '(k, score) => (k, rescore score))
                                (fold_left accumulate appartements (initScores agents)))
                  = JsMap.keys (initScores agents)).
  { now rewrite JsMapFacts.keys_map, accumulate_fold_keys. }
  repeat split.
  - unfold JsMap.wf. rewrite Hkeys. apply initScores_wf.
  - rewrite Hkeys. apply initScores_keys.
  - rewrite Hkeys. apply initScores_keys.
  - intros a Ha.
    rewrite JsMapFacts.get_map, accumulate_fold_get, initScores_get.
    assert (Hid : isAgentId agents (Agent.id a) = true).
    { apply isAgentId_In, in_map_iff. now exists a. }
    rewrite Hid. cbn [option_map]. eexists. split; [reflexivity |].
    cbn [rescore Score.agent_id].
    now destruct (addUnit_fold_totals (unitsOf (Agent.id a) appartements)
                    (zeroScore (Agent.id a))) as (-> & _).
  - rewrite totalCount_rescore, totalCount_fold.
    rewrite (totalCount_zero _ (initScores_zero agents)). cbn [Nat.add].
    f_equal. apply List.filter_ext. intros appt. apply countedIn_initScores.
Qed.

(** C5. When no agent carries the empty id, [calculateAgentScores] returns
    one summary per id of an input agent, stored under that id and carrying
    it (and, the ids being distinct, the keys of the map are the ids of the
    agents in their order), and the sum of [nombre_appartements] over the
    summaries is the number of input units whose reference is non-null and
    is the id of an input agent: the other units are ignored. *)
Theorem calculateAgentScores_one_summary_per_agent
    (agents : list Agent) (appartements : list Appartement) :
  Forall wellFormedId agents ->
  JsMap.wf (calculateAgentScores agents appartements) /\
  (forall k, In k (JsMap.keys (calculateAgentScores agents appartements))
             <-> In k (List.map Agent.id agents)) /\
  (NoDup (List.map Agent.id agents) ->
   JsMap.keys (calculateAgentScores agents appartements) = List.map Agent.id agents) /\
  (forall a, In a agents ->
             exists s, JsMap.get (Agent.id a) (calculateAgentScores agents appartements) = Some s /\
                       Score.agent_id s = Agent.id a) /\
  totalCount (calculateAgentScores agents appartements)
  = List.length (List.filter (referencesAgent agents) appartements).
Proof.
  intros Hids.
  destruct (calculateAgentScores_census agents appartements) as (Hwf & Hkeys & Hget & Hcount).
  split; [exact Hwf |]. split; [exact Hkeys |].
  split.
  { intros Hnd. unfold calculateAgentScores. cbn zeta.
    rewrite JsMapFacts.keys_map, accumulate_fold_keys. unfold initScores.
    now rewrite initScores_keys_from. }
  split; [exact Hget |].
  rewrite Hcount. f_equal. apply List.filter_ext. intros appt.
  unfold referencesAgent.
  destruct (Appartement.agent_id appt) as [k |]; [| reflexivity].
  destruct (isAgentId agents k) eqn:E; [| apply andb_false_r].
  rewrite andb_true_r.
  apply isAgentId_In, in_map_iff in E as (a & <- & Ha).
  cbn [truthy]. apply negb_true_iff, String.eqb_neq.
  exact (proj1 (Forall_forall _ _) Hids a Ha).
Qed.

(** Two agents and three units, one of them without an agent. *)
Lemma calculateAgentScores_one_summary_per_agent_witness :
  JsMap.keys (calculateAgentScores [alice; bruno] [studio; loft; duplex]) = ["alice"; "bruno"] /\
  totalCount (calculateAgentScores [alice; bruno] [studio; loft; duplex])
  = List.length (List.filter (referencesAgent [alice; bruno]) [studio; loft; duplex]).
Proof.
  split; [reflexivity |].
  apply (calculateAgentScores_one_summary_per_agent [alice; bruno] [studio; loft; duplex]).
  repeat constructor; discriminate.
Defined.

(** ** The order of binary64 values *)

Lemma SFcompare_finite (s1 s2 : bool) (m1 m2 : positive) (e1 e2 : Z) :
  SFcompare (S754_finite s1 m1 e1) (S754_finite s2 m2 e2)
  = Some (if s1
          then if s2
               then match Z.compare e1 e2 with
                    | Eq => CompOpp (Pos.compare m1 m2)
                    | Lt => Gt
                    | Gt => Lt
                    end
               else Lt
          else if s2
               then Gt
               else match Z.compare e1 e2 with
                    | Eq => Pos.compare m1 m2
                    | Lt => Lt
                    | Gt => Gt
                    end).
Proof. reflexivity. Qed.

Lemma SFleb_ltb_trans (a b c : spec_float) :
  SFleb a b = true -> SFltb b c = true -> SFltb a c = true.
Proof.
  unfold SFleb, SFltb.
  destruct a as [[] | [] | | [] ma ea], b as [[] | [] | | [] mb eb],
           c as [[] | [] | | [] mc ec];
    rewrite ?SFcompare_finite; try (cbn; congruence); order_cases.
Qed.

Lemma SFltb_not_leb (a b : spec_float) : SFltb b a = true -> SFleb a b = false.
Proof.
  unfold SFleb, SFltb.
  destruct a as [[] | [] | | [] ma ea], b as [[] | [] | | [] mb eb];
    rewrite ?SFcompare_finite; try (cbn; congruence); order_cases.
Qed.

Lemma SFltb_leb (a b : spec_float) : SFltb a b = true -> SFleb a b = true.
Proof.
  unfold SFleb, SFltb. destruct (SFcompare a b) as [[] |]; congruence.
Qed.

Lemma SFltb_infinity (a b : spec_float) :
  SFltb a b = true -> SFltb a (S754_infinity false) = true.
Proof.
  unfold SFltb.
  destruct a as [[] | [] | | [] ma ea], b as [[] | [] | | [] mb eb];
    cbn; congruence.
Qed.

Section FloatOrder.
Local Open Scope float_scope.
Implicit Types x y z : float.

(** [x <= y] and [y < z] give [x < z]. *)
Lemma float_leb_ltb_trans x y z : (x <=? y) = true -> (y <? z) = true -> (x <? z) = true.
Proof. rewrite leb_spec, !ltb_spec. apply SFleb_ltb_trans. Qed.

(** [y < x] excludes [x <= y]. *)
Lemma float_ltb_not_leb x y : (y <? x) = true -> (x <=? y) = false.
Proof. rewrite leb_spec, ltb_spec. apply SFltb_not_leb. Qed.

Lemma float_ltb_leb x y : (x <? y) = true -> (x <=? y) = true.
Proof. rewrite leb_spec, ltb_spec. apply SFltb_leb. Qed.

(** Whatever is below some number is below [Infinity]. *)
Lemma float_ltb_infinity x y : (x <? y) = true -> Ieee.reachable x = true.
Proof.
  unfold Ieee.reachable. rewrite !ltb_spec.
  change (Prim2SF infinity) with (S754_infinity false). apply SFltb_infinity.
Qed.
End FloatOrder.

(** ** The engine in double precision: the summaries *)

Section IeeeAggregator.
Implicit Types (scores : JsMap.t Ieee.DistributionScore) (appt : Ieee.Appartement)
               (k : string).









End IeeeAggregator.




(** ** The engine in double precision: the choice of [suggestOptimalAgent] *)

Section IeeeAdvisor.
Variable appartement : Ieee.Appartement.
Variable agents : list Agent.
Variable currentScores : JsMap.t Ieee.DistributionScore.

Local Abbreviation diff := (Ieee.scoreDiff appartement agents currentScores).
Local Abbreviation step := (Ieee.considerAgent appartement agents currentScores).
Local Abbreviation kept := (Ieee.firstNearest appartement agents currentScores).

Lemma considerAgent_firstNearest (seen : list Agent) (st : option string * float)
    (y : Agent) :
  kept seen st -> kept (seen ++ [y]) (step st y).
Proof.
  destruct st as [[w |] lo]; unfold Ieee.firstNearest, Ieee.considerAgent; cbn [fst snd].
  - intros (pre & a & post & -> & -> & -> & Ha & Hpre & Hpost).
    destruct (diff y <? diff a)%float eqn:Hlt; cbn [fst snd].
    + exists (pre ++ a :: post)%list, y, []. split; [reflexivity |].
      split; [reflexivity |]. split; [reflexivity |].
      split; [exact (float_ltb_infinity _ _ Hlt) |].
      split; [| intros x []].
      intros x Hx. destruct (diff x <=? diff y)%float eqn:Hle; [exfalso | reflexivity].
      pose proof (float_leb_ltb_trans _ _ _ Hle Hlt) as Hxa.
      apply in_app_iff in Hx as [Hx | [<- | Hx]].
      * apply float_ltb_leb in Hxa. rewrite (Hpre x Hx) in Hxa. discriminate.
      * rewrite (float_ltb_not_leb _ _ Hlt) in Hle. discriminate.
      * rewrite (Hpost x Hx) in Hxa. discriminate.
    + exists pre, a, (post ++ [y])%list. split; [now rewrite <- app_assoc |].
      split; [reflexivity |]. split; [reflexivity |]. split; [exact Ha |].
      split; [exact Hpre |].
      intros x Hx. apply in_app_iff in Hx as [Hx | [<- | []]]; [now apply Hpost | exact Hlt].
  - intros [-> Hnone].
    destruct (diff y <? infinity)%float eqn:Hlt; cbn [fst snd].
    + exists seen, y, []. split; [reflexivity |].
      split; [reflexivity |]. split; [reflexivity |]. split; [exact Hlt |].
      split; [| intros x []].
      intros x Hx. destruct (diff x <=? diff y)%float eqn:Hle; [exfalso | reflexivity].
      pose proof (float_leb_ltb_trans _ _ _ Hle Hlt) as Hxa.
      unfold Ieee.reachable in Hnone. rewrite (Hnone x Hx) in Hxa. discriminate.
    + split; [reflexivity |].
      intros x Hx. apply in_app_iff in Hx as [Hx | [<- | []]]; [now apply Hnone | exact Hlt].
Qed.

Lemma considerAgent_fold_firstNearest (seen l : list Agent) (st : option string * float) :
  kept seen st -> kept (seen ++ l) (fold_left step l st).
Proof.
  revert seen st. induction l as [| y l IH]; intros seen st H; cbn [fold_left].
  - now rewrite app_nil_r.
  - replace (seen ++ y :: l)%list with ((seen ++ [y]) ++ l)%list by now rewrite <- app_assoc.
    apply IH. now apply considerAgent_firstNearest.
Qed.

(** The loop, run over the whole roster from its initial state. *)
Lemma suggestOptimalAgent_loop : kept agents (fold_left step agents (None, infinity)).
Proof.
  apply (considerAgent_fold_firstNearest [] agents (None, infinity)).
  split; [reflexivity | intros x []].
Qed.

Lemma suggestOptimalAgent_unfold :
  Ieee.suggestOptimalAgent appartement agents currentScores
  = fst (fold_left step agents (None, infinity)).
Proof.
  unfold Ieee.suggestOptimalAgent. destruct agents; reflexivity.
Qed.
End IeeeAdvisor.




(** The same with an ordinary unit, when the summary of the only agent
    holds [Infinity]: the average is [Infinity] and the distance is
    [NaN]. *)
Example suggestOptimalAgent_infinite_summary :
  Ieee.scoreDiff Ieee.loft [alice] [("alice", Ieee.summary "alice" infinity)] alice = nan /\
  Ieee.suggestOptimalAgent Ieee.loft [alice] [("alice", Ieee.summary "alice" infinity)] = None.
Proof. split; vm_compute; reflexivity. Qed.

(** ** The engine in double precision: the average of [suggestOptimalAgent] *)

Section IeeeFleetAverage.
Implicit Types (scores : JsMap.t Ieee.DistributionScore) (agents : list Agent).




End IeeeFleetAverage.




(** ** BalanceMetric *)




(** ** AutoDistributor: the pairings of [handleAutoDistribute] *)

Section AutoDistributor.
Lemma insertByScore_perm (a : Appartement) (l : list Appartement) :
  Permutation (insertByScore a l) (a :: l).
Proof.
  induction l as [| b l IH]; cbn [insertByScore]; [reflexivity |].
  destruct (Qlt_le_dec 0 _); [| reflexivity].
  rewrite IH. apply perm_swap.
Qed.

(** Sorting keeps the units. *)
Lemma sortByScoreDesc_perm (l : list Appartement) : Permutation (sortByScoreDesc l) l.
Proof.
  unfold sortByScoreDesc. induction l as [| a l IH]; cbn [fold_right]; [reflexivity |].
  rewrite insertByScore_perm. now constructor.
Qed.

Lemma simulateStep_pairs (agents : list Agent) (currentScores : JsMap.t loc)
    (st : heap * list Assignment) (u : Appartement) :
  snd (simulateStep agents currentScores st u) = snd st \/
  exists w, snd (simulateStep agents currentScores st u) = (snd st ++ [(u, w)])%list.
Proof.
  destruct st as [h acc]. unfold simulateStep.
  destruct (suggestOptimalAgent u agents (deref h currentScores)) as [w |]; [| now left].
  destruct (truthy (Some w)); [| now left].
  right. exists w.
  destruct (JsMap.get w currentScores) as [l |]; [| reflexivity].
  now destruct (h !! l).
Qed.

(** Every pairing of the simulation is for a unit of the list it runs on. *)
Lemma simulate_fold_pairs (agents : list Agent) (currentScores : JsMap.t loc)
    (l : list Appartement) (st : heap * list Assignment) (u : Appartement) (w : string) :
  In (u, w) (snd (fold_left (simulateStep agents currentScores) l st)) ->
  In (u, w) (snd st) \/ In u l.
Proof.
  revert st. induction l as [| a l IH]; intros st Hin; cbn [fold_left] in Hin;
    [now left |].
  apply IH in Hin as [Hin | Hin]; [| right; now right].
  destruct (simulateStep_pairs agents currentScores st a) as [E | (w' & E)];
    rewrite E in Hin.
  - now left.
  - apply in_app_iff in Hin as [Hin | [[= <- <-] | []]]; [now left | right; now left].
Qed.
End AutoDistributor.

(** Every pairing that [handleAutoDistribute] produces is for a unit of
    the input whose reference to an agent was falsy and whose status was
    not [inactif]. *)
Lemma handleAutoDistribute_pairs_unassigned_active
    (st : UI.t) (appartement : Appartement) (agentId : string) :
  In (appartement, agentId) (pairings (handleAutoDistribute st)) ->
  In appartement (UI.appartements st) /\
  (Appartement.agent_id appartement = None \/ Appartement.agent_id appartement = Some "") /\
  Appartement.statut appartement <> inactif.
Proof.
  unfold handleAutoDistribute.
  destruct (List.length (UI.agents st) =? 0)%nat; [intros [] |].
  cbn zeta.
  destruct (List.length (List.filter unassignedActive (UI.appartements st)) =? 0)%nat;
    [intros [] |].
  destruct (fold_left _ _ _) as [h assignments] eqn:E.
  intros Hin.
  assert (Hin' : In (appartement, agentId) assignments).
  { destruct (List.length assignments =? 0)%nat; [destruct Hin | exact Hin]. }
  replace assignments with (snd (h, assignments)) in Hin' by reflexivity.
  rewrite <- E in Hin'.
  apply simulate_fold_pairs in Hin' as [[] | Hs].
  apply (Permutation_in _ (sortByScoreDesc_perm _)) in Hs.
  apply filter_In in Hs as [Hu Hp]. split; [assumption |].
  unfold unassignedActive in Hp. apply andb_prop in Hp as [Hfalsy Hstatut].
  split.
  - destruct (Appartement.agent_id appartement) as [k |]; [right | now left].
    cbn [truthy] in Hfalsy. apply negb_true_iff, negb_false_iff in Hfalsy.
    apply String.eqb_eq in Hfalsy. now subst.
  - intros Hi. rewrite Hi in Hstatut. discriminate.
Qed.

(** C2. When the reference of every unit is well formed ([null] or an id,
    never the empty string), every pairing that [handleAutoDistribute]
    produces is for a unit of the input whose reference was [null] and
    whose status was not [inactif]: no unit that is assigned already and no
    inactive unit is paired. *)
Theorem handleAutoDistribute_pairs_null_reference
    (st : UI.t) (appartement : Appartement) (agentId : string) :
  Forall wellFormedReference (UI.appartements st) ->
  In (appartement, agentId) (pairings (handleAutoDistribute st)) ->
  In appartement (UI.appartements st) /\
  Appartement.agent_id appartement = None /\
  Appartement.statut appartement <> inactif.
Proof.
  intros Hrefs Hin.
  destruct (handleAutoDistribute_pairs_unassigned_active st appartement agentId Hin)
    as (Hu & [Hnull | Hempty] & Hstatut).
  - now repeat split.
  - exfalso. exact (proj1 (Forall_forall _ _) Hrefs appartement Hu Hempty).
Qed.

(** The free unit of two is paired with the only agent. *)
Lemma handleAutoDistribute_pairs_null_reference_witness :
  In (loft, "alice") (pairings (handleAutoDistribute (loadedState [alice] [studio; loft]))) /\
  Appartement.agent_id loft = None /\
  Appartement.statut loft <> inactif.
Proof.
  assert (H : In (loft, "alice")
                 (pairings (handleAutoDistribute (loadedState [alice] [studio; loft])))).
  { vm_compute. now left. }
  split; [exact H |].
  apply (handleAutoDistribute_pairs_null_reference
           (loadedState [alice] [studio; loft]) loft "alice"); [| exact H].
  repeat constructor; discriminate.
Defined.

(** C6, as the code has it.  When no unit is eligible the handler returns
    early, pairs nothing and leaves the store as it was; with a non-empty
    list of agents its feedback is the message of [nothingToAssignMessage],
    which the handler types as an error like its other refusals and which
    differs from them; with an empty list of agents the check of the
    agents, which comes first, gives the message of [noAgentsMessage]. *)
Theorem handleAutoDistribute_no_candidate (st : UI.t) :
  List.filter unassignedActive (UI.appartements st) = [] ->
  handleAutoDistribute st
  = Returned (withFeedback st
                (Some (Feedback.mk error
                         (match UI.agents st with
                          | [] => noAgentsMessage
                          | _ :: _ => nothingToAssignMessage
                          end)))
                (UI.isAutoAssigning st) (UI.store st)) /\
  nothingToAssignMessage <> noAgentsMessage /\
  nothingToAssignMessage <> noAssignmentMessage.
Proof.
  intros E. unfold handleAutoDistribute. cbn zeta. rewrite E.
  split; [| split; discriminate].
  now destruct (UI.agents st).
Qed.

(** Two units, both assigned already: nothing to assign. *)
Lemma handleAutoDistribute_no_candidate_witness :
  List.filter unassignedActive [studio; duplex] = [] /\
  handleAutoDistribute (loadedState [alice] [studio; duplex])
  = Returned (withFeedback (loadedState [alice] [studio; duplex])
                (Some (Feedback.mk error nothingToAssignMessage)) false
                (UI.store (loadedState [alice] [studio; duplex]))).
Proof.
  split; [reflexivity |].
  apply (handleAutoDistribute_no_candidate (loadedState [alice] [studio; duplex])).
  reflexivity.
Defined.

(** C6, as it is worded, fails: with no agent and no eligible unit the
    handler reports the missing agents, and with an agent it reports that
    nothing can be assigned as an error. *)
Lemma handleAutoDistribute_no_candidate_no_agent :
  List.filter unassignedActive [studio] = [] /\
  UI.feedback (stateOf (handleAutoDistribute (loadedState [] [studio])))
  = Some (Feedback.mk error noAgentsMessage) /\
  noAgentsMessage <> nothingToAssignMessage /\
  UI.feedback (stateOf (handleAutoDistribute (loadedState [alice] [studio])))
  = Some (Feedback.mk error nothingToAssignMessage).
Proof. repeat split. discriminate. Qed.

(** C7 fails on the code.  The copy that the handler makes of [scoreMap]
    shares the summary objects with it: after the simulation has paired
    [loft] with the only agent, the summary that the state of the component
    holds for that agent has changed. *)
Lemma handleAutoDistribute_changes_scoreMap :
  deref (UI.store (loadedState [alice] [loft])) (UI.scoreMap (loadedState [alice] [loft]))
  = [("alice", rescore (zeroScore "alice"))] /\
  pairings (handleAutoDistribute (loadedState [alice] [loft])) = [(loft, "alice")] /\
  UI.scoreMap (stateOf (handleAutoDistribute (loadedState [alice] [loft])))
  = UI.scoreMap (loadedState [alice] [loft]) /\
  deref (UI.store (stateOf (handleAutoDistribute (loadedState [alice] [loft]))))
        (UI.scoreMap (loadedState [alice] [loft]))
  = [("alice", simulateAssign (rescore (zeroScore "alice")) loft)] /\
  Score.nombre_appartements (rescore (zeroScore "alice")) = 0%nat /\
  Score.nombre_appartements (simulateAssign (rescore (zeroScore "alice")) loft) = 1%nat.
Proof. repeat split; vm_compute; reflexivity. Qed.

(** ** RouteBuilder: the loop of [buildAgentRoute] *)

Section RouteBuilder.
Context `{JsMath}.

Lemma considerStop_fold_bound (n : nat) (currentPoint : option Point)
    (l : list (nat * Appartement)) (st : nat * bound) :
  (forall e, In e l -> (fst e < n)%nat) -> (fst st < n)%nat ->
  (fst (fold_left (considerStop currentPoint) l st) < n)%nat.
Proof.
  revert st. induction l as [| e l IH]; intros st Hl Hst; cbn [fold_left];
    [assumption |].
  apply IH.
  - intros x Hx. apply Hl. now right.
  - unfold considerStop. destruct (below _ (snd st)); [| assumption].
    cbn [fst]. apply Hl. now left.
Qed.

(** The index that one pass chooses is an index of [remaining]. *)
Lemma nearestIndex_lt (currentPoint : option Point) (remaining : list Appartement) :
  remaining <> [] -> (nearestIndex currentPoint remaining < List.length remaining)%nat.
Proof.
  intros Hne. unfold nearestIndex. apply considerStop_fold_bound.
  - intros [i a] Hin. apply in_combine_l in Hin. apply in_seq in Hin. cbn [fst]. lia.
  - destruct remaining; [congruence | cbn; lia].
Qed.

Lemma splice_lt (index : nat) (remaining : list Appartement) :
  (index < List.length remaining)%nat ->
  exists next rest,
    splice index remaining = Some (next, rest) /\
    Permutation remaining (next :: rest) /\
    List.length remaining = S (List.length rest).
Proof.
  revert index. induction remaining as [| a l IH]; intros index Hlt; cbn in Hlt; [lia |].
  destruct index as [| i]; cbn [splice].
  - exists a, l. repeat split. apply Permutation_refl.
  - destruct (IH i) as (next & rest & -> & Hperm & Hlen); [lia |].
    exists next, (a :: rest). repeat split.
    + rewrite perm_swap. now constructor.
    + cbn. now rewrite Hlen.
Qed.




End RouteBuilder.


(** * Further properties of the code *)

(** ** WorkloadScorer *)

(** X1. The score of a unit does not decrease when none of its four
    attributes decreases. *)
Theorem calculateWorkloadScore_monotone (a b : Appartement) :
  Appartement.nombre_chambres a <= Appartement.nombre_chambres b ->
  Appartement.surface a <= Appartement.surface b ->
  Appartement.distance_base a <= Appartement.distance_base b ->
  Appartement.difficulte a <= Appartement.difficulte b ->
  calculateWorkloadScore a <= calculateWorkloadScore b.
Proof.
  unfold calculateWorkloadScore, chambreWeight, surfaceWeight, distanceWeight, difficulteWeight.
  intros. lra.
Qed.

(** [studio] is below [duplex] in every attribute. *)
Lemma calculateWorkloadScore_monotone_witness :
  calculateWorkloadScore studio <= calculateWorkloadScore duplex.
Proof.
  apply (calculateWorkloadScore_monotone studio duplex); vm_compute; discriminate.
Defined.

Lemma calculateWorkloadScore_nonneg (a : Appartement) :
  nonNegativeUnit a -> 0 <= calculateWorkloadScore a.
Proof.
  unfold nonNegativeUnit, calculateWorkloadScore, chambreWeight, surfaceWeight,
    distanceWeight, difficulteWeight.
  intros (? & ? & ? & ?). lra.
Qed.

(** ** AssignmentAdvisor: the choice *)

(** X2. [suggestOptimalAgent] returns the id of the first agent, in the
    order of the roster, at the least distance from the average: the
    distance of the agent returned is below [Infinity], no agent before it
    is at a distance less than or equal to its own, and no agent after it
    is at a smaller distance; and it returns [null] only when no agent is at
    a distance below [Infinity]. *)
Theorem suggestOptimalAgent_first_nearest
    (appartement : Ieee.Appartement) (agents : list Agent)
    (currentScores : JsMap.t Ieee.DistributionScore) :
  match Ieee.suggestOptimalAgent appartement agents currentScores with
  | Some w =>
      exists pre a post,
        agents = (pre ++ a :: post)%list /\ w = Agent.id a /\
        Ieee.reachable (Ieee.scoreDiff appartement agents currentScores a) = true /\
        (forall x, In x pre ->
                   (Ieee.scoreDiff appartement agents currentScores x
                    <=? Ieee.scoreDiff appartement agents currentScores a)%float = false) /\
        (forall x, In x post ->
                   (Ieee.scoreDiff appartement agents currentScores x
                    <? Ieee.scoreDiff appartement agents currentScores a)%float = false)
  | None =>
      forall x, In x agents ->
                Ieee.reachable (Ieee.scoreDiff appartement agents currentScores x) = false
  end.
Proof.
  rewrite suggestOptimalAgent_unfold.
  pose proof (suggestOptimalAgent_loop appartement agents currentScores) as H.
  unfold Ieee.firstNearest in H.
  destruct (fst (fold_left _ agents (None, infinity))) as [w |].
  - destruct H as (pre & a & post & Hsplit & Hw & _ & Ha & Hpre & Hpost).
    now exists pre, a, post.
  - exact (proj2 H).
Qed.

(** Two agents at the same distance: the first one is kept. *)
Example suggestOptimalAgent_tie :
  Ieee.scoreDiff Ieee.loft [bruno; mkAgent "chloe" None] [] bruno
  = Ieee.scoreDiff Ieee.loft [bruno; mkAgent "chloe" None] [] (mkAgent "chloe" None) /\
  Ieee.suggestOptimalAgent Ieee.loft [bruno; mkAgent "chloe" None] [] = Some "bruno".
Proof. split; vm_compute; reflexivity. Qed.

(** ** BalanceMetric: the range *)

Section Equilibre.
Context `{JsMath}.

Lemma fold_squares_nonneg (avg : Q) (l : list Q) (a : Q) :
  0 <= a -> 0 <= fold_left (fun sum val => sum + (val - avg) ^ 2) l a.
Proof.
  revert a. induction l as [| x l IH]; intros a Ha; cbn [fold_left]; [assumption |].
  apply IH. pose proof (Qsqr_nonneg (x - avg)). lra.
Qed.

Lemma inject_length_pos {A : Type} (x : A) (l : list A) :
  0 < inject_Z (Z.of_nat (List.length (x :: l))).
Proof.
  change 0 with (inject_Z 0). rewrite <- Zlt_Qlt. cbn [List.length]. lia.
Qed.

Lemma Qdiv_nonneg (a b : Q) : 0 <= a -> 0 < b -> 0 <= a / b.
Proof.
  intros Ha Hb. unfold Qdiv. apply Qmult_le_0_compat; [assumption |].
  apply Qlt_le_weak, Qinv_lt_0_compat, Hb.
Qed.

End Equilibre.

(** X3. Given that [Math.sqrt] of a non-negative number is non-negative,
    the result of [calculateEquilibreGlobal] lies between [0] and [100], and
    it is [0] for an empty map. *)
Theorem calculateEquilibreGlobal_range `{JsMath} (scores : JsMap.t DistributionScore) :
  (forall x, 0 <= x -> 0 <= Math_sqrt x) ->
  0 <= calculateEquilibreGlobal scores <= 100 /\
  (scores = [] -> calculateEquilibreGlobal scores = 0).
Proof.
  intros Hsqrt. split; [| now intros ->].
  unfold calculateEquilibreGlobal. cbn zeta.
  destruct scores as [| e scores]; [cbn; split; discriminate |].
  cbn [JsMap.values List.map List.length Nat.eqb].
  set (n := inject_Z (Z.of_nat (S (List.length (List.map Score.score_equilibre
                                                   (List.map snd scores)))))).
  assert (Hn : 0 < n).
  { exact (inject_length_pos (Score.score_equilibre (snd e))
             (List.map Score.score_equilibre (List.map snd scores))). }
  set (avg := fold_left (fun sum val => sum + val) _ 0 / n).
  set (variance := fold_left (fun sum val => sum + (val - avg) ^ 2) _ 0 / n).
  assert (Hvar : 0 <= variance).
  { apply Qdiv_nonneg; [| exact Hn]. apply fold_squares_nonneg. lra. }
  split; [apply Q.le_max_l |].
  apply Q.max_lub; [discriminate |].
  destruct (Qlt_le_dec 0 avg) as [Hpos | _]; [| lra].
  assert (Hcv : 0 <= Math_sqrt variance / avg) by (apply Qdiv_nonneg; auto).
  lra.
Qed.

(** Two loaded workers, with the stand-in square root. *)
Lemma calculateEquilibreGlobal_range_witness :
  0 <= @calculateEquilibreGlobal sampleMath
         [("alice", summary "alice" 100); ("bruno", summary "bruno" 60)] <= 100.
Proof.
  apply (@calculateEquilibreGlobal_range sampleMath
           [("alice", summary "alice" 100); ("bruno", summary "bruno" 60)]).
  intros x Hx. exact Hx.
Defined.

(** ** LoadAggregator: what the callers rely on *)

Section AggregatorUse.
Implicit Types (scores : JsMap.t DistributionScore) (appt : Appartement).

Lemma accumulate_falsy scores appt :
  truthy (Appartement.agent_id appt) = false -> accumulate scores appt = scores.
Proof.
  unfold accumulate. destruct (Appartement.agent_id appt) as [k |]; [| reflexivity].
  now intros ->.
Qed.

Lemma accumulate_fold_filter (p : Appartement -> bool) (l : list Appartement) scores :
  (forall appt s, p appt = false -> accumulate s appt = s) ->
  fold_left accumulate (List.filter p l) scores = fold_left accumulate l scores.
Proof.
  intros Hp. revert scores. induction l as [| a l IH]; intros scores; cbn [List.filter fold_left];
    [reflexivity |].
  destruct (p a) eqn:E; cbn [fold_left].
  - apply IH.
  - rewrite (Hp a scores E). apply IH.
Qed.

Lemma accumulate_fold_truthy (l : list Appartement) scores :
  fold_left accumulate (List.filter (fun appt => truthy (Appartement.agent_id appt)) l) scores
  = fold_left accumulate l scores.
Proof. apply accumulate_fold_filter. intros appt s. apply accumulate_falsy. Qed.

Lemma addUnit_fold_nonneg (l : list Appartement) (s : DistributionScore) :
  Forall nonNegativeUnit l -> nonNegativeSummary s ->
  nonNegativeSummary (fold_left addUnit l s).
Proof.
  intros Hl. revert s. induction Hl as [| a l Ha Hl IH]; intros s Hs; cbn [fold_left];
    [assumption |].
  apply IH. destruct Ha as (? & ? & ? & ?), Hs as (? & ? & ? & ?).
  unfold nonNegativeSummary. cbn. repeat split; lra.
Qed.
End AggregatorUse.

(** X5. Units without a truthy reference to an agent do not matter to
    [calculateAgentScores]: the summaries are the same with or without
    them, so the filter that [loadAppartements] applies before the call
    changes nothing. *)
Theorem calculateAgentScores_ignores_unassigned
    (agents : list Agent) (appartements : list Appartement) :
  calculateAgentScores agents
    (List.filter (fun appt => truthy (Appartement.agent_id appt)) appartements)
  = calculateAgentScores agents appartements.
Proof.
  unfold calculateAgentScores. cbn zeta. f_equal.
  apply accumulate_fold_truthy.
Qed.

(** X6. When the ids of the agents are pairwise distinct, the summaries of
    [calculateAgentScores] come in the order of the agents. *)
Theorem calculateAgentScores_keys_in_order
    (agents : list Agent) (appartements : list Appartement) :
  NoDup (List.map Agent.id agents) ->
  JsMap.keys (calculateAgentScores agents appartements) = List.map Agent.id agents.
Proof.
  intros Hnd. unfold calculateAgentScores. cbn zeta.
  rewrite JsMapFacts.keys_map, accumulate_fold_keys. unfold initScores.
  now rewrite initScores_keys_from.
Qed.

Lemma calculateAgentScores_keys_in_order_witness :
  JsMap.keys (calculateAgentScores [bruno; alice] [studio; loft; duplex]) = ["bruno"; "alice"].
Proof.
  apply (calculateAgentScores_keys_in_order [bruno; alice] [studio; loft; duplex]).
  repeat constructor; cbn; intuition discriminate.
Defined.

(** X7. When the four attributes of every unit are non-negative, so are
    the totals and the balance score of every summary of
    [calculateAgentScores]. *)
Theorem calculateAgentScores_nonneg
    (agents : list Agent) (appartements : list Appartement)
    (k : string) (s : DistributionScore) :
  Forall nonNegativeUnit appartements ->
  JsMap.get k (calculateAgentScores agents appartements) = Some s ->
  0 <= Score.total_chambres s /\ 0 <= Score.total_surface s /\
  0 <= Score.total_distance s /\ 0 <= Score.total_difficulte s /\
  0 <= Score.score_equilibre s.
Proof.
  intros Hunits. unfold calculateAgentScores. cbn zeta.
  rewrite JsMapFacts.get_map, accumulate_fold_get, initScores_get.
  destruct (isAgentId agents k); [| discriminate].
  cbn [option_map]. intros [= <-].
  destruct (addUnit_fold_nonneg (unitsOf k appartements) (zeroScore k))
    as (H1 & H2 & H3 & H4).
  - unfold unitsOf. apply Forall_forall. intros x Hx. apply filter_In in Hx as [Hx _].
    revert x Hx. now apply Forall_forall.
  - unfold nonNegativeSummary. cbn. repeat split; discriminate.
  - cbn [rescore Score.total_chambres Score.total_surface Score.total_distance
         Score.total_difficulte Score.score_equilibre].
    repeat split; try assumption.
    unfold weighTotals, chambreWeight, surfaceWeight, distanceWeight, difficulteWeight. lra.
Qed.

Lemma calculateAgentScores_nonneg_witness :
  exists s, JsMap.get "alice" (calculateAgentScores [alice; bruno] [studio; loft; duplex]) = Some s /\
            0 <= Score.score_equilibre s.
Proof.
  eexists. split; [reflexivity |].
  eapply (calculateAgentScores_nonneg [alice; bruno] [studio; loft; duplex] "alice");
    [| reflexivity].
  repeat constructor; discriminate.
Defined.

(** ** AutoDistributor: order and agents of the pairings *)

Section Pairings.
Variable agents : list Agent.
Variable currentScores : JsMap.t loc.

Local Abbreviation step := (simulateStep agents currentScores).





(** Every agent of a pairing is a non-empty id of the roster. *)
Lemma simulate_fold_agents (l : list Appartement) (st : heap * list Assignment) :
  Forall (fun p => snd p <> "" /\ In (snd p) (List.map Agent.id agents)) (snd st) ->
  Forall (fun p => snd p <> "" /\ In (snd p) (List.map Agent.id agents))
         (snd (fold_left step l st)).
Proof.
  revert st. induction l as [| u l IH]; intros st Hst; cbn [fold_left]; [assumption |].
  apply IH. destruct st as [h acc]. unfold simulateStep.
  destruct (suggestOptimalAgent u agents (deref h currentScores)) as [w |] eqn:E;
    [| assumption].
  destruct (truthy (Some w)) eqn:Hw; [| assumption].
  assert (Hnew : Forall (fun p => snd p <> "" /\ In (snd p) (List.map Agent.id agents))
                        (acc ++ [(u, w)])).
  { apply Forall_app. split; [exact Hst |]. constructor; [| constructor].
    cbn [snd]. split.
    - intros ->. discriminate.
    - destruct agents as [| a rest] eqn:Ea; [discriminate |].
      destruct (suggestOptimalAgent_cons u (a :: rest) (deref h currentScores) a rest eq_refl)
        as (x & Hx & Hsome).
      rewrite Hsome in E. injection E as <-. now apply in_map. }
  destruct (JsMap.get w currentScores) as [lw |]; [| exact Hnew].
  destruct (h !! lw); exact Hnew.
Qed.

End Pairings.


(** X9. Every pairing of [handleAutoDistribute] names an agent of the
    roster by a non-empty id. *)
Theorem handleAutoDistribute_pairs_roster_agent
    (st : UI.t) (appartement : Appartement) (agentId : string) :
  In (appartement, agentId) (pairings (handleAutoDistribute st)) ->
  agentId <> "" /\ exists a, In a (UI.agents st) /\ Agent.id a = agentId.
Proof.
  unfold handleAutoDistribute.
  destruct (List.length (UI.agents st) =? 0)%nat; [intros [] |].
  cbn zeta.
  destruct (List.length (List.filter unassignedActive (UI.appartements st)) =? 0)%nat;
    [intros [] |].
  pose proof (simulate_fold_agents (UI.agents st) (UI.scoreMap st)
                (sortByScoreDesc (List.filter unassignedActive (UI.appartements st)))
                (UI.store st, []) (Forall_nil _)) as Hall.
  destruct (fold_left _ _ _) as [h assignments].
  cbn [snd] in Hall. intros Hin.
  assert (Hin' : In (appartement, agentId) assignments).
  { destruct (List.length assignments =? 0)%nat; [destruct Hin | exact Hin]. }
  rewrite Forall_forall in Hall. destruct (Hall _ Hin') as [Hne Hid].
  cbn [snd] in *. split; [exact Hne |].
  apply in_map_iff in Hid as (a & Ha & Hin''). now exists a.
Qed.

Lemma handleAutoDistribute_pairs_roster_agent_witness :
  exists a, In a [alice; bruno] /\ Agent.id a = "bruno".
Proof.
  apply (handleAutoDistribute_pairs_roster_agent
           (loadedState [alice; bruno] [studio; loft; duplex]) loft "bruno").
  vm_compute. now left.
Defined.

(** ** AutoDistributor: what the simulation does to the summaries *)

Section Simulation.
Variable agents : list Agent.
Variable currentScores : JsMap.t loc.
Hypothesis distinct_objects : NoDup (JsMap.values currentScores).

Local Abbreviation step := (simulateStep agents currentScores).
Local Abbreviation simulated := (simulated currentScores).

(** Two keys of the map do not share their object. *)
Lemma get_same_object (k k' : string) (l : loc) :
  JsMap.get k currentScores = Some l -> JsMap.get k' currentScores = Some l -> k = k'.
Proof.
  revert distinct_objects. unfold JsMap.values.
  induction currentScores as [| [k0 l0] m IH]; cbn; [discriminate |].
  intros Hnd. inversion Hnd as [| ? ? Hfresh Hnd']; subst.
  assert (Hin : forall x, JsMap.get x m = Some l0 -> In l0 (List.map snd m)).
  { clear. induction m as [| [k1 l1] m IH]; cbn; [discriminate |].
    intros x. destruct (String.eqb x k1); [intros [= ->]; now left | right; eauto]. }
  destruct (String.eqb_spec k k0) as [-> | Hk], (String.eqb_spec k' k0) as [-> | Hk'].
  - reflexivity.
  - intros [= <-] H'. exfalso. eauto.
  - intros H' [= <-]. exfalso. eauto.
  - now apply IH.
Qed.

Lemma unitsPairedWith_snoc (k w : string) (ps : list Assignment) (u : Appartement) :
  unitsPairedWith k (ps ++ [(u, w)])
  = (unitsPairedWith k ps ++ if String.eqb w k then [u] else [])%list.
Proof.
  unfold unitsPairedWith. rewrite List.filter_app, List.map_app. cbn.
  now destruct (String.eqb w k).
Qed.

Lemma simulateStep_simulated (h0 : heap) (st : heap * list Assignment) (u : Appartement) :
  simulated h0 st -> simulated h0 (step st u).
Proof.
  intros Hinv. destruct st as [h acc]. unfold simulateStep.
  destruct (suggestOptimalAgent u agents (deref h currentScores)) as [w |]; [| exact Hinv].
  destruct (truthy (Some w)); [| exact Hinv].
  assert (Hother : forall k l s,
             JsMap.get k currentScores = Some l -> h0 !! l = Some s -> k <> w ->
             h !! l = Some (fold_left simulateAssign
                              (unitsPairedWith k (acc ++ [(u, w)])) s)).
  { intros k l s Hk Hs Hne. rewrite unitsPairedWith_snoc.
    destruct (String.eqb_spec w k); [congruence |]. rewrite app_nil_r.
    exact (Hinv k l s Hk Hs). }
  destruct (JsMap.get w currentScores) as [lw |] eqn:Ew.
  - destruct (h !! lw) as [sw |] eqn:Esw.
    + intros k l s Hk Hs. cbn [fst snd].
      destruct (String.eqb_spec w k) as [<- | Hne].
      * rewrite Ew in Hk. injection Hk as <-.
        rewrite lookup_insert_eq, unitsPairedWith_snoc, String.eqb_refl, fold_left_app.
        cbn [fold_left]. do 2 f_equal.
        pose proof (Hinv w lw s Ew Hs) as Hw. cbn [fst snd] in Hw. congruence.
      * rewrite lookup_insert_ne.
        -- apply Hother; auto.
        -- intros <-. apply Hne. exact (get_same_object w k lw Ew Hk).
    + intros k l s Hk Hs. cbn [fst snd].
      destruct (String.eqb_spec w k) as [<- | Hne]; [| apply Hother; auto].
      rewrite Ew in Hk. injection Hk as <-.
      pose proof (Hinv w lw s Ew Hs) as Hw. cbn [fst] in Hw. congruence.
  - intros k l s Hk Hs. cbn [fst snd].
    destruct (String.eqb_spec w k) as [<- | Hne]; [congruence | apply Hother; auto].
Qed.

Lemma simulate_fold_simulated (h0 : heap) (l : list Appartement) (st : heap * list Assignment) :
  simulated h0 st -> simulated h0 (fold_left step l st).
Proof.
  revert st. induction l as [| u l IH]; intros st Hst; cbn [fold_left]; [assumption |].
  apply IH. now apply simulateStep_simulated.
Qed.

(** The simulation writes only to objects of the map. *)
Lemma simulate_fold_frame (l : list Appartement) (st : heap * list Assignment) (x : loc) :
  ~ In x (JsMap.values currentScores) ->
  fst (fold_left step l st) !! x = fst st !! x.
Proof.
  intros Hx. revert st. induction l as [| u l IH]; intros st; cbn [fold_left]; [reflexivity |].
  rewrite IH. destruct st as [h acc]. unfold simulateStep.
  destruct (suggestOptimalAgent u agents (deref h currentScores)) as [w |]; [| reflexivity].
  destruct (truthy (Some w)); [| reflexivity].
  destruct (JsMap.get w currentScores) as [lw |] eqn:Ew; [| reflexivity].
  destruct (h !! lw); [| reflexivity].
  cbn [fst]. apply lookup_insert_ne. intros <-. apply Hx.
  clear -Ew. unfold JsMap.values.
  induction currentScores as [| [k1 l1] m IH]; cbn in *; [discriminate |].
  destruct (String.eqb w k1); [injection Ew as ->; now left | right; auto].
Qed.
End Simulation.

(** The object of each key after the handler, whatever its outcome. *)
Lemma simulated_objects (st : UI.t) :
  NoDup (JsMap.values (UI.scoreMap st)) ->
  forall k l s,
    JsMap.get k (UI.scoreMap st) = Some l -> UI.store st !! l = Some s ->
    UI.store (stateOf (handleAutoDistribute st)) !! l
    = Some (fold_left simulateAssign
              (unitsPairedWith k (pairings (handleAutoDistribute st))) s).
Proof.
  intros Hnd. unfold handleAutoDistribute.
  destruct (List.length (UI.agents st) =? 0)%nat; [now intros |].
  cbn zeta.
  destruct (List.length (List.filter unassignedActive (UI.appartements st)) =? 0)%nat;
    [now intros |].
  pose proof (simulate_fold_simulated (UI.agents st) (UI.scoreMap st) Hnd (UI.store st)
                (sortByScoreDesc (List.filter unassignedActive (UI.appartements st)))
                (UI.store st, [])) as Hsim.
  destruct (fold_left _ _ _) as [h assignments].
  cbn [fst snd] in *.
  assert (Hobj : forall k l s,
             JsMap.get k (UI.scoreMap st) = Some l -> UI.store st !! l = Some s ->
             h !! l = Some (fold_left simulateAssign (unitsPairedWith k assignments) s)).
  { apply Hsim. intros k l s _ Hs. exact Hs. }
  destruct (List.length assignments =? 0)%nat eqn:Hlen;
    cbn [stateOf pairings withFeedback UI.store]; [| exact Hobj].
  intros k l s Hk Hs. rewrite (Hobj k l s Hk Hs).
  destruct assignments; [reflexivity | discriminate].
Qed.

(** X11. When the keys of [scoreMap] refer to pairwise distinct summary
    objects, [handleAutoDistribute] leaves in the object of each key the
    summary it found there with the units paired with that key added one by
    one, in the order of the pairings; and it leaves every object that the
    map does not refer to as it was. *)
Theorem handleAutoDistribute_summaries (st : UI.t) :
  NoDup (JsMap.values (UI.scoreMap st)) ->
  (forall k l s,
     JsMap.get k (UI.scoreMap st) = Some l -> UI.store st !! l = Some s ->
     UI.store (stateOf (handleAutoDistribute st)) !! l
     = Some (fold_left simulateAssign
               (unitsPairedWith k (pairings (handleAutoDistribute st))) s)) /\
  (forall x, ~ In x (JsMap.values (UI.scoreMap st)) ->
             UI.store (stateOf (handleAutoDistribute st)) !! x = UI.store st !! x).
Proof.
  intros Hnd. unfold handleAutoDistribute.
  destruct (List.length (UI.agents st) =? 0)%nat; [now split |].
  cbn zeta.
  destruct (List.length (List.filter unassignedActive (UI.appartements st)) =? 0)%nat;
    [now split |].
  pose proof (simulate_fold_simulated (UI.agents st) (UI.scoreMap st) Hnd (UI.store st)
                (sortByScoreDesc (List.filter unassignedActive (UI.appartements st)))
                (UI.store st, [])) as Hsim.
  pose proof (simulate_fold_frame (UI.agents st) (UI.scoreMap st)
                (sortByScoreDesc (List.filter unassignedActive (UI.appartements st)))
                (UI.store st, [])) as Hframe.
  destruct (fold_left _ _ _) as [h assignments].
  cbn [fst snd] in *.
  assert (Hobj : forall k l s,
             JsMap.get k (UI.scoreMap st) = Some l -> UI.store st !! l = Some s ->
             h !! l = Some (fold_left simulateAssign (unitsPairedWith k assignments) s)).
  { apply Hsim. intros k l s _ Hs. exact Hs. }
  destruct (List.length assignments =? 0)%nat eqn:Hlen.
  - cbn [stateOf pairings withFeedback UI.store]. split; [| exact Hframe].
    intros k l s Hk Hs. rewrite (Hobj k l s Hk Hs).
    destruct assignments; [reflexivity | discriminate].
  - cbn [stateOf pairings withFeedback UI.store]. split; [exact Hobj | exact Hframe].
Qed.

Lemma handleAutoDistribute_summaries_witness :
  UI.store (stateOf (handleAutoDistribute (loadedState [alice; bruno] [studio; loft; orphelin])))
    !! 1%nat
  = Some (fold_left simulateAssign
            (unitsPairedWith "bruno"
               (pairings (handleAutoDistribute (loadedState [alice; bruno] [studio; loft; orphelin]))))
            (rescore (zeroScore "bruno"))).
Proof.
  apply (handleAutoDistribute_summaries (loadedState [alice; bruno] [studio; loft; orphelin])).
  - repeat constructor; cbn; intuition discriminate.
  - reflexivity.
  - reflexivity.
Defined.

(** ** RouteBuilder: the tour is a nearest-neighbour tour *)

Section NearestNeighbour.
Context `{JsMath}.

Lemma considerStop_leastSoFar (cp : option Point) (seen : list Appartement)
    (st : nat * bound) (y : Appartement) :
  leastSoFar cp seen st ->
  leastSoFar cp (seen ++ [y]) (considerStop cp st (List.length seen, y)).
Proof.
  intros (a & Hnth & Hsnd & Hleast). unfold considerStop. cbn [fst snd].
  rewrite Hsnd. cbn [below].
  destruct (Qlt_le_dec _ _) as [Hlt | Hle].
  - exists y. cbn [fst snd]. repeat split.
    + rewrite nth_error_app2 by lia. now rewrite Nat.sub_diag.
    + intros x Hx. apply in_app_iff in Hx as [Hx | [<- | []]].
      * apply Qlt_le_weak. eapply Qlt_le_trans; [exact Hlt | now apply Hleast].
      * apply Qle_refl.
  - exists a. repeat split.
    + rewrite nth_error_app1; [exact Hnth |]. apply nth_error_Some. congruence.
    + exact Hsnd.
    + intros x Hx. apply in_app_iff in Hx as [Hx | [<- | []]]; [now apply Hleast | exact Hle].
Qed.

Lemma considerStop_fold_leastSoFar (cp : option Point) (seen l : list Appartement)
    (st : nat * bound) :
  leastSoFar cp seen st ->
  leastSoFar cp (seen ++ l)
    (fold_left (considerStop cp) (combine (seq (List.length seen) (List.length l)) l) st).
Proof.
  revert seen st. induction l as [| y l IH]; intros seen st Hst;
    cbn [List.length seq combine fold_left].
  - now rewrite app_nil_r.
  - replace (seen ++ y :: l)%list with ((seen ++ [y]) ++ l)%list by now rewrite <- app_assoc.
    replace (S (List.length seen)) with (List.length (seen ++ [y]))
      by (rewrite length_app; cbn; lia).
    apply IH. now apply considerStop_leastSoFar.
Qed.

(** One pass chooses the index of a unit at the least distance. *)
Lemma nearestIndex_least (cp : option Point) (remaining : list Appartement) :
  remaining <> [] ->
  exists a,
    nth_error remaining (nearestIndex cp remaining) = Some a /\
    forall x, In x remaining -> distanceFrom cp (pointOf a) <= distanceFrom cp (pointOf x).
Proof.
  intros Hne. destruct remaining as [| y l]; [congruence |].
  unfold nearestIndex. cbn [List.length seq combine fold_left].
  destruct (considerStop_fold_leastSoFar cp [y] l (considerStop cp (0%nat, Infinity) (0%nat, y)))
    as (a & Hnth & _ & Hleast).
  - exists y. unfold considerStop. cbn [snd below fst]. repeat split.
    intros x [<- | []]. apply Qle_refl.
  - exists a. split; [exact Hnth | exact Hleast].
Qed.

Lemma splice_nth (index : nat) (remaining : list Appartement)
    (next : Appartement) (rest : list Appartement) :
  splice index remaining = Some (next, rest) -> nth_error remaining index = Some next.
Proof.
  revert index rest. induction remaining as [| a l IH]; intros index rest;
    [now destruct index |].
  destruct index as [| i]; cbn [splice nth_error]; [now intros [= -> _] |].
  destruct (splice i l) as [[n r] |] eqn:E; [| discriminate].
  intros [= -> _]. eauto.
Qed.

(** With as much fuel as there are units left, the steps that the loop
    adds are a nearest-neighbour tour of these units. *)
Lemma routeLoop_nearestTour (fuel : nat) (st : Tour.t) :
  (List.length (Tour.remaining st) <= fuel)%nat ->
  exists st' tail,
    routeLoop fuel st = Some st' /\
    Tour.etapes st' = (Tour.etapes st ++ tail)%list /\
    nearestTour (Tour.currentPoint st) (Tour.ordre st) (Tour.remaining st) tail.
Proof.
  revert st. induction fuel as [| fuel IH]; intros st Hfuel.
  - destruct (Tour.remaining st) as [| a l] eqn:E; [| cbn in Hfuel; lia].
    exists st, []. cbn [routeLoop nearestTour]. rewrite E, app_nil_r. now repeat split.
  - cbn [routeLoop].
    destruct (Tour.remaining st) as [| a l] eqn:E.
    + exists st, []. rewrite app_nil_r. now repeat split.
    + assert (Hne : Tour.remaining st <> []) by (rewrite E; discriminate).
      destruct (nearestIndex_least (Tour.currentPoint st) _ Hne) as (b & Hnth & Hleast).
      destruct (splice_lt _ _ (nearestIndex_lt (Tour.currentPoint st) _ Hne))
        as (next & rest & Hs & Hperm & Hlen).
      pose proof (splice_nth _ _ _ _ Hs) as Hn. rewrite Hnth in Hn. injection Hn as ->.
      unfold visitNext. rewrite Hs.
      rewrite E in Hperm, Hlen, Hleast.
      destruct (IH (Tour.mk rest
                      (Tour.etapes st ++ [Step.mk next (Tour.ordre st)
                                            (distanceFrom (Tour.currentPoint st) (pointOf next))])
                      (Tour.totalDistance st + distanceFrom (Tour.currentPoint st) (pointOf next))
                      (Some (pointOf next)) (Tour.ordre st + 1)%nat))
        as (st' & tail & Hrun & Het & Htour).
      { cbn [Tour.remaining]. cbn in Hfuel, Hlen. lia. }
      cbn [Tour.remaining Tour.etapes Tour.currentPoint Tour.ordre] in *.
      exists st', (Step.mk next (Tour.ordre st)
                     (distanceFrom (Tour.currentPoint st) (pointOf next)) :: tail).
      split; [exact Hrun |]. split; [now rewrite Het, <- app_assoc |].
      cbn [nearestTour Step.ordre Step.distanceDepuisPrecedent Step.appartement].
      repeat split; [exact Hleast |]. now exists rest.
Qed.

Lemma nearestTour_stops (cp : option Point) (ord : nat) (remaining : list Appartement)
    (tail : list AgentRouteStep) :
  nearestTour cp ord remaining tail -> Permutation (stops tail) remaining.
Proof.
  revert cp ord remaining. induction tail as [| s tail IH]; intros cp ord remaining; cbn.
  - now intros ->.
  - intros (_ & _ & _ & rest & Hperm & Htour).
    rewrite Hperm. constructor. eapply IH, Htour.
Qed.

Lemma nearestTour_ordres (cp : option Point) (ord : nat) (remaining : list Appartement)
    (tail : list AgentRouteStep) :
  nearestTour cp ord remaining tail ->
  List.map Step.ordre tail = seq ord (List.length tail).
Proof.
  revert cp ord remaining. induction tail as [| s tail IH]; intros cp ord remaining; cbn;
    [reflexivity |].
  intros (-> & _ & _ & rest & _ & Htour). f_equal.
  rewrite (IH _ _ _ Htour). f_equal. lia.
Qed.

(** In a nearest-neighbour tour, every step goes to a stop that is not
    farther from the point of departure than any later stop. *)
Lemma nearestTour_split (cp : option Point) (ord : nat) (remaining : list Appartement)
    (pre : list AgentRouteStep) (s : AgentRouteStep) (post : list AgentRouteStep) :
  nearestTour cp ord remaining (pre ++ s :: post) ->
  Step.distanceDepuisPrecedent s
  = distanceFrom (departure cp pre) (pointOf (Step.appartement s)) /\
  forall s', In s' post ->
             Step.distanceDepuisPrecedent s
             <= distanceFrom (departure cp pre) (pointOf (Step.appartement s')).
Proof.
  revert cp ord remaining. induction pre as [| p pre IH]; intros cp ord remaining.
  - cbn [app nearestTour]. intros (_ & Hleg & Hleast & rest & Hperm & Htour).
    split; [exact Hleg |]. intros s' Hs'. apply Hleast.
    apply (Permutation_in _ (Permutation_sym Hperm)). right.
    apply (Permutation_in _ (nearestTour_stops _ _ _ _ Htour)).
    unfold stops. now apply in_map.
  - cbn [app nearestTour]. intros (_ & _ & _ & rest & _ & Htour).
    specialize (IH _ _ _ Htour).
    replace (departure cp (p :: pre))
      with (departure (Some (pointOf (Step.appartement p))) pre); [exact IH |].
    unfold departure. cbn [rev].
    destruct (rev pre) as [| x l]; reflexivity.
Qed.
End NearestNeighbour.



(** On that input the route goes from [studio] to [loft] and then to
    [duplex]. *)
Example buildAgentRoute_without_base_sample :
  option_map (fun r => List.map (fun e => (Appartement.id (Step.appartement e), Step.ordre e))
                                (Route.etapes r))
             (@buildAgentRoute sampleMath "alice"
                [loft; located studio 48 2; located duplex 49 3;
                 located atelier (481 # 10) (21 # 10)]
                None)
  = Some [("studio", 1%nat); ("atelier", 2%nat); ("duplex", 3%nat)].
Proof. vm_compute. reflexivity. Qed.

(** X12. In the route of [buildAgentRoute], the leg of every step is the
    distance from its point of departure (the previous stop, or the base
    for the first step, or nothing, which counts for [0], when there is no
    base), and no later stop of the route is nearer to that point. *)
Theorem buildAgentRoute_nearest_next `{JsMath}
    (agentId : string) (appartements : list Appartement) (base : option Point)
    (route : AgentRoute) (pre : list AgentRouteStep) (s : AgentRouteStep)
    (post : list AgentRouteStep) :
  buildAgentRoute agentId appartements base = Some route ->
  Route.etapes route = (pre ++ s :: post)%list ->
  Step.distanceDepuisPrecedent s
  = distanceFrom (departure base pre) (pointOf (Step.appartement s)) /\
  forall s', In s' post ->
             Step.distanceDepuisPrecedent s
             <= distanceFrom (departure base pre) (pointOf (Step.appartement s')).
Proof.
  unfold buildAgentRoute. cbn zeta.
  destruct (List.filter visitable appartements) as [| a l] eqn:E.
  - cbn [List.length Nat.eqb]. intros [= <-]. cbn [Route.etapes].
    intros Hnil. now destruct pre.
  - cbn [List.length Nat.eqb].
    destruct (routeLoop_nearestTour (S (List.length l)) (Tour.mk (a :: l) [] 0 base 1%nat))
      as (st' & tail & -> & Het & Htour); [cbn; lia |].
    cbn [Tour.remaining Tour.etapes Tour.currentPoint Tour.ordre app] in *.
    intros [= <-]. cbn [Route.etapes]. rewrite Het. intros ->.
    exact (nearestTour_split _ _ _ _ _ _ Htour).
Qed.

(** From a base next to [studio], the first step goes to [studio]. *)
Lemma buildAgentRoute_nearest_next_witness :
  exists route s post,
    @buildAgentRoute sampleMath "alice"
      [located duplex 49 3; loft; located studio (481 # 10) (21 # 10)]
      (Some (Point.mk 48 2)) = Some route /\
    Route.etapes route = s :: post /\
    Appartement.id (Step.appartement s) = "studio" /\
    forall s', In s' post ->
               Step.distanceDepuisPrecedent s
               <= @distanceFrom sampleMath (Some (Point.mk 48 2))
                    (pointOf (Step.appartement s')).
Proof.
  assert (Hrun : exists route,
             @buildAgentRoute sampleMath "alice"
               [located duplex 49 3; loft; located studio (481 # 10) (21 # 10)]
               (Some (Point.mk 48 2)) = Some route /\
             exists s post, Route.etapes route = s :: post /\
                            Appartement.id (Step.appartement s) = "studio").
  { vm_compute. eexists. split; [reflexivity |]. eexists _, _. split; reflexivity. }
  destruct Hrun as (route & Hr & s & post & He & Hid).
  exists route, s, post. split; [exact Hr |]. split; [exact He |]. split; [exact Hid |].
  apply (@buildAgentRoute_nearest_next sampleMath "alice"
           [located duplex 49 3; loft; located studio (481 # 10) (21 # 10)]
           (Some (Point.mk 48 2)) route [] s post Hr He).
Defined.

(** X13. The steps of the route of [buildAgentRoute] are numbered [1],
    [2], ... in the order of the visit. *)
Theorem buildAgentRoute_ordres `{JsMath}
    (agentId : string) (appartements : list Appartement) (base : option Point) :
  exists route,
    buildAgentRoute agentId appartements base = Some route /\
    List.map Step.ordre (Route.etapes route) = seq 1 (List.length (Route.etapes route)).
Proof.
  unfold buildAgentRoute. cbn zeta.
  destruct (List.filter visitable appartements) as [| a l] eqn:E.
  - cbn [List.length Nat.eqb]. eexists. split; reflexivity.
  - cbn [List.length Nat.eqb].
    destruct (routeLoop_nearestTour (S (List.length l)) (Tour.mk (a :: l) [] 0 base 1%nat))
      as (st' & tail & -> & Het & Htour); [cbn; lia |].
    cbn [Tour.remaining Tour.etapes Tour.currentPoint Tour.ordre app] in *.
    eexists. split; [reflexivity |]. cbn [Route.etapes]. rewrite Het.
    exact (nearestTour_ordres _ _ _ _ Htour).
Qed.

(** ** The lists of [AppartementsList] *)

Section Groups.
Context `{JsLocale}.
Implicit Types (groups : JsMap.t (list Appartement)) (appt : Appartement) (k : string).

Lemma insertByNom_perm (a : Appartement) (l : list Appartement) :
  Permutation (insertByNom a l) (a :: l).
Proof.
  induction l as [| b l IH]; cbn [insertByNom]; [reflexivity |].
  destruct (0 <? _)%Z; [| reflexivity].
  rewrite IH. apply perm_swap.
Qed.

(** The sort by name keeps the units. *)
Lemma sortByNom_perm (l : list Appartement) : Permutation (sortByNom l) l.
Proof.
  unfold sortByNom. induction l as [| a l IH]; cbn [fold_right]; [reflexivity |].
  rewrite insertByNom_perm. now constructor.
Qed.

Lemma pushUnit_get groups appt k :
  JsMap.get k (pushUnit groups appt)
  = if match Appartement.agent_id appt with Some k' => String.eqb k' k | None => false end
    then Some (match JsMap.get k groups with Some l => l | None => [] end ++ [appt])%list
    else JsMap.get k groups.
Proof.
  unfold pushUnit, JsMap.has.
  destruct (Appartement.agent_id appt) as [key |]; [| reflexivity].
  destruct (JsMap.get key groups) as [l |] eqn:E.
  - rewrite E, JsMapFacts.get_set, (String.eqb_sym key k).
    destruct (String.eqb_spec k key) as [-> | _]; [now rewrite E | reflexivity].
  - rewrite JsMapFacts.get_set_eq, !JsMapFacts.get_set, (String.eqb_sym key k).
    destruct (String.eqb_spec k key) as [-> | _]; [now rewrite E | reflexivity].
Qed.

(** The array of [k] after the loop: what it held, then the units that
    refer to [k], in the order of the input. *)
Lemma pushUnit_fold_get (l : list Appartement) groups k :
  JsMap.get k (fold_left pushUnit l groups)
  = match referring k l with
    | [] => JsMap.get k groups
    | us => Some (match JsMap.get k groups with Some l0 => l0 | None => [] end ++ us)%list
    end.
Proof.
  revert groups. induction l as [| a l IH]; intros groups; cbn [fold_left]; [reflexivity |].
  rewrite IH, pushUnit_get. unfold referring. cbn [List.filter].
  destruct (match Appartement.agent_id a with Some k' => String.eqb k' k | None => false end).
  - destruct (List.filter _ l); [reflexivity | now rewrite <- app_assoc].
  - reflexivity.
Qed.

Lemma pushUnit_wf groups appt : JsMap.wf groups -> JsMap.wf (pushUnit groups appt).
Proof.
  intros Hwf. unfold pushUnit.
  destruct (Appartement.agent_id appt) as [key |]; [| assumption].
  destruct (JsMap.has key groups).
  - destruct (JsMap.get key groups); [now apply JsMapFacts.wf_set | assumption].
  - destruct (JsMap.get key (JsMap.set key [] groups));
      [now apply JsMapFacts.wf_set, JsMapFacts.wf_set | now apply JsMapFacts.wf_set].
Qed.

Lemma pushUnit_fold_wf (l : list Appartement) groups :
  JsMap.wf groups -> JsMap.wf (fold_left pushUnit l groups).
Proof.
  revert groups. induction l as [| a l IH]; intros groups Hwf; cbn [fold_left]; [assumption |].
  now apply IH, pushUnit_wf.
Qed.

Lemma groupedCount_set groups k (l l' : list Appartement) :
  JsMap.get k groups = Some l ->
  (groupedCount (JsMap.set k l' groups) + List.length l
   = groupedCount groups + List.length l')%nat.
Proof.
  unfold groupedCount, JsMap.values, list_sum.
  induction groups as [| [k0 v0] groups IH]; cbn; [discriminate |].
  destruct (String.eqb k k0); cbn.
  - intros [= ->]. lia.
  - intros Hg. specialize (IH Hg). lia.
Qed.

Lemma groupedCount_set_new groups k :
  JsMap.get k groups = None -> groupedCount (JsMap.set k [] groups) = groupedCount groups.
Proof.
  unfold groupedCount, JsMap.values, list_sum.
  induction groups as [| [k0 v0] groups IH]; cbn; [reflexivity |].
  destruct (String.eqb k k0); cbn; [discriminate |].
  intros Hg. now rewrite (IH Hg).
Qed.

Lemma groupedCount_pushUnit groups appt :
  Appartement.agent_id appt <> None ->
  groupedCount (pushUnit groups appt) = S (groupedCount groups).
Proof.
  unfold pushUnit, JsMap.has.
  destruct (Appartement.agent_id appt) as [key |]; [intros _ | congruence].
  destruct (JsMap.get key groups) as [l |] eqn:E.
  - rewrite E. pose proof (groupedCount_set groups key l (l ++ [appt]) E) as Hc.
    rewrite length_app in Hc. cbn [List.length] in Hc. lia.
  - rewrite JsMapFacts.get_set_eq. cbn [app].
    pose proof (groupedCount_set (JsMap.set key [] groups) key [] [appt]
                  (JsMapFacts.get_set_eq groups key [])) as Hc.
    rewrite (groupedCount_set_new groups key E) in Hc. cbn [List.length] in Hc. lia.
Qed.

Lemma groupedCount_fold (l : list Appartement) groups :
  Forall (fun appt => Appartement.agent_id appt <> None) l ->
  groupedCount (fold_left pushUnit l groups) = (groupedCount groups + List.length l)%nat.
Proof.
  intros Hl. revert groups. induction Hl as [| a l Ha Hl IH]; intros groups; cbn [fold_left].
  - cbn. lia.
  - rewrite IH, (groupedCount_pushUnit groups a Ha). cbn. lia.
Qed.

Lemma get_of_In {V : Type} (m : JsMap.t V) (k : string) (v : V) :
  JsMap.wf m -> In (k, v) m -> JsMap.get k m = Some v.
Proof.
  unfold JsMap.wf, JsMap.keys.
  induction m as [| [k0 v0] m IH]; cbn; [intros _ [] |].
  intros Hnd. inversion Hnd as [| ? ? Hfresh Hnd']; subst.
  intros [[= -> ->] | Hin].
  - now rewrite String.eqb_refl.
  - destruct (String.eqb_spec k k0) as [-> | _]; [| now apply IH].
    exfalso. apply Hfresh. change k0 with (fst (k0, v)). now apply in_map.
Qed.

Lemma referring_filter_truthy (k : string) (l : list Appartement) :
  k <> "" ->
  referring k (List.filter (fun appt => truthy (Appartement.agent_id appt)) l) = referring k l.
Proof.
  intros Hk. unfold referring. induction l as [| a l IH]; cbn [List.filter]; [reflexivity |].
  destruct (Appartement.agent_id a) as [k' |] eqn:E; cbn [truthy].
  - destruct (String.eqb_spec k' "") as [-> | Hne]; cbn [negb List.filter]; rewrite ?E.
    + destruct (String.eqb_spec "" k); [congruence | exact IH].
    + now rewrite IH.
  - exact IH.
Qed.
End Groups.

(** X14. [appartAssignedByAgent] makes one group per reference that occurs
    among the units and is not empty: the keys of the groups are pairwise
    distinct and non-empty, each group holds, in some order, exactly the
    units that refer to its key, and every unit with a truthy reference is
    in the group of that reference. *)
Theorem appartAssignedByAgent_groups `{JsLocale}
    (agents : list Agent) (appartements : list Appartement) :
  NoDup (List.map Group.agentId (appartAssignedByAgent agents appartements)) /\
  (forall g, In g (appartAssignedByAgent agents appartements) ->
             Group.agentId g <> "" /\
             Group.appartements g <> [] /\
             Permutation (Group.appartements g) (referring (Group.agentId g) appartements) /\
             Group.agentName g = getAgentName agents (Some (Group.agentId g))) /\
  (forall u k, In u appartements -> Appartement.agent_id u = Some k -> k <> "" ->
               exists g, In g (appartAssignedByAgent agents appartements) /\
                         Group.agentId g = k /\ In u (Group.appartements g)).
Proof.
  unfold appartAssignedByAgent. cbn zeta.
  set (filtered := List.filter (fun appt => truthy (Appartement.agent_id appt)) appartements).
  set (groups := fold_left pushUnit filtered JsMap.empty).
  assert (Hwf : JsMap.wf groups) by (apply pushUnit_fold_wf; constructor).
  assert (Hget : forall k, JsMap.get k groups
                           = match referring k filtered with [] => None | us => Some us end).
  { intros k. unfold groups. rewrite pushUnit_fold_get. cbn [JsMap.get JsMap.empty].
    now destruct (referring k filtered). }
  assert (Hkey : forall k l, JsMap.get k groups = Some l ->
                             k <> "" /\ l <> [] /\ l = referring k appartements).
  { intros k l Hk. rewrite Hget in Hk.
    destruct (referring k filtered) as [| u us] eqn:E; [discriminate |].
    injection Hk as <-.
    assert (Hne : k <> "").
    { assert (Hu : In u (referring k filtered)) by (rewrite E; now left).
      unfold referring, filtered in Hu. apply filter_In in Hu as [Hu Hk].
      apply filter_In in Hu as [_ Ht].
      destruct (Appartement.agent_id u) as [k' |]; [| discriminate].
      apply String.eqb_eq in Hk as ->. cbn [truthy] in Ht.
      intros ->. discriminate. }
    split; [exact Hne |]. split; [discriminate |].
    rewrite <- E. now apply referring_filter_truthy. }
  split; [| split].
  - rewrite List.map_map.
    rewrite (List.map_ext _ fst); [exact Hwf | now intros [k l]].
  - intros g Hg. apply in_map_iff in Hg as ([k l] & <- & Hin).
    cbn [Group.agentId Group.appartements Group.agentName].
    destruct (Hkey k l (get_of_In groups k l Hwf Hin)) as (Hne & Hl & Hrefs).
    split; [exact Hne |]. split.
    + intros Hs. apply Hl. apply Permutation_nil. rewrite <- Hs.
      apply sortByNom_perm.
    + split; [| reflexivity]. rewrite sortByNom_perm. now rewrite Hrefs.
  - intros u k Hu Hk Hne.
    assert (Hin : In u (referring k appartements)).
    { unfold referring. apply filter_In. split; [exact Hu |].
      rewrite Hk. apply String.eqb_refl. }
    pose proof (Hget k) as Hg. unfold filtered in Hg.
    rewrite (referring_filter_truthy k appartements Hne) in Hg.
    destruct (referring k appartements) as [| u0 us] eqn:E; [destruct Hin |].
    exists (Group.mk k (getAgentName agents (Some k)) (sortByNom (u0 :: us))).
    split; [| split; [reflexivity |]].
    + apply in_map_iff. exists (k, u0 :: us). split; [reflexivity |].
      clear -Hg. induction groups as [| [k1 l1] m IH]; cbn in Hg; [discriminate |].
      destruct (String.eqb_spec k k1) as [-> | _]; [injection Hg as ->; now left | right; auto].
    + cbn [Group.appartements].
      apply (Permutation_in _ (Permutation_sym (sortByNom_perm (u0 :: us)))). exact Hin.
Qed.

(** X15. Every unit is listed once by [AppartementsList]: the units of
    [appartUnassigned] and those of the groups of [appartAssignedByAgent]
    are together as many as the units. *)
Theorem appartements_listed_once `{JsLocale}
    (agents : list Agent) (appartements : list Appartement) :
  (List.length (appartUnassigned appartements)
   + list_sum (List.map (fun g => List.length (Group.appartements g))
                        (appartAssignedByAgent agents appartements)))%nat
  = List.length appartements.
Proof.
  unfold appartAssignedByAgent, appartUnassigned. cbn zeta.
  rewrite List.map_map.
  rewrite (List.map_ext _ (fun e => List.length (snd e))).
  - pose proof (groupedCount_fold
                  (List.filter (fun appt => truthy (Appartement.agent_id appt)) appartements)
                  JsMap.empty) as Hc.
    unfold groupedCount, JsMap.values in Hc. rewrite List.map_map in Hc.
    rewrite Hc.
    + cbn. pose proof (List.filter_length (fun appt => truthy (Appartement.agent_id appt))
                         appartements) as Hf. lia.
    + apply Forall_forall. intros u Hu. apply filter_In in Hu as [_ Ht].
      destruct (Appartement.agent_id u); [discriminate | discriminate].
  - intros [k l]. cbn [Group.appartements snd].
    apply Permutation_length, sortByNom_perm.
Qed.

(** X16. [getAgentName] answers the label of the unassigned for [null] and
    for the empty string, the label of the unknown for an id that no agent
    has, and otherwise the name of the first agent that has the id, or the
    label of the unknown when that name is empty. *)
Theorem getAgentName_cases (agents : list Agent) :
  getAgentName agents None = nonAssigneLabel /\
  getAgentName agents (Some "") = nonAssigneLabel /\
  (forall k, k <> "" -> ~ In k (List.map Agent.id agents) ->
             getAgentName agents (Some k) = inconnuLabel) /\
  (forall pre a post,
     agents = (pre ++ a :: post)%list -> Agent.id a <> "" ->
     ~ In (Agent.id a) (List.map Agent.id pre) ->
     getAgentName agents (Some (Agent.id a))
     = if String.eqb (Agent.nom a) "" then inconnuLabel else Agent.nom a).
Proof.
  split; [reflexivity |]. split; [reflexivity |]. split.
  - intros k Hk Hnot. unfold getAgentName. cbn [truthy].
    apply String.eqb_neq in Hk. rewrite Hk. cbn [negb]. unfold nameOrInconnu.
    destruct (List.find _ agents) as [a |] eqn:E; [| reflexivity].
    apply find_some in E as [Ha Hid]. apply String.eqb_eq in Hid.
    exfalso. apply Hnot. rewrite <- Hid. now apply in_map.
  - intros pre a post -> Hid Hfirst. unfold getAgentName. cbn [truthy].
    apply String.eqb_neq in Hid. rewrite Hid. cbn [negb]. unfold nameOrInconnu.
    assert (Hfind : List.find (fun x => String.eqb (Agent.id x) (Agent.id a))
                              (pre ++ a :: post) = Some a).
    { induction pre as [| p pre IH]; cbn [app List.find].
      - now rewrite String.eqb_refl.
      - destruct (String.eqb_spec (Agent.id p) (Agent.id a)) as [E | _].
        + exfalso. apply Hfirst. left. exact E.
        + apply IH. intros Hin. apply Hfirst. now right. }
    now rewrite Hfind.
Qed.

(** Units of two references, one of them unknown to the roster, beside
    units without a truthy reference. *)
Example appartAssignedByAgent_sample :
  List.map (fun g => (Group.agentId g, Group.agentName g,
                      List.map Appartement.id (Group.appartements g)))
           (@appartAssignedByAgent sampleLocale [alice]
              [studio; loft; duplex; orphelin;
               mkUnit "cave" "Sud" 1 10 1 1 (Some "zed") assigne])
  = [("alice", "alice", ["studio"; "duplex"]); ("zed", "Inconnu", ["cave"])].
Proof. reflexivity. Qed.

(** ** The bars of [DistributionDashboard] *)

Lemma maxScore_nonneg (scoresArray : list DistributionScore) : 0 <= maxScore scoresArray.
Proof.
  unfold maxScore. induction scoresArray as [| s l IH]; cbn [List.map fold_right].
  - apply Qle_refl.
  - eapply Qle_trans; [exact IH | apply Q.le_max_r].
Qed.

Lemma maxScore_upper (scoresArray : list DistributionScore) (s : DistributionScore) :
  In s scoresArray -> Score.score_equilibre s <= maxScore scoresArray.
Proof.
  unfold maxScore. induction scoresArray as [| x l IH]; cbn [List.map fold_right]; [intros [] |].
  intros [-> | Hin].
  - apply Q.le_max_l.
  - eapply Qle_trans; [now apply IH | apply Q.le_max_r].
Qed.

Lemma maxScore_reached (scoresArray : list DistributionScore) :
  0 < maxScore scoresArray ->
  exists s, In s scoresArray /\ Score.score_equilibre s == maxScore scoresArray.
Proof.
  unfold maxScore. induction scoresArray as [| x l IH]; cbn [List.map fold_right].
  - intros Hpos. exfalso. exact (Qlt_irrefl 0 Hpos).
  - intros Hpos.
    destruct (Q.max_spec (Score.score_equilibre x)
                (fold_right Qmax 0 (List.map Score.score_equilibre l))) as [[Hlt E] | [Hle E]].
    + rewrite E in Hpos. destruct (IH Hpos) as (s & Hs & Heq).
      exists s. split; [now right |]. now rewrite E.
    + exists x. split; [now left |]. now rewrite E.
Qed.

(** X17. When no balance score is negative, the width that the dashboard
    gives to the bar of a summary lies between [0] and [100] per cent, and
    when some score is positive a bar has the full width. *)
Theorem percentage_range (scoresArray : list DistributionScore) :
  Forall (fun s => 0 <= Score.score_equilibre s) scoresArray ->
  (forall s, In s scoresArray -> 0 <= percentage scoresArray s <= 100) /\
  (0 < maxScore scoresArray ->
   exists s, In s scoresArray /\ percentage scoresArray s == 100).
Proof.
  intros Hall. split.
  - intros s Hs. unfold percentage.
    destruct (Qlt_le_dec 0 (maxScore scoresArray)) as [Hpos | _]; [| split; discriminate].
    assert (H0 : 0 <= Score.score_equilibre s) by exact (proj1 (Forall_forall _ _) Hall s Hs).
    pose proof (maxScore_upper scoresArray s Hs) as Hle.
    assert (Hq : 0 <= Score.score_equilibre s / maxScore scoresArray <= 1).
    { split.
      - apply Qle_shift_div_l; [exact Hpos | lra].
      - apply Qle_shift_div_r; [exact Hpos | lra]. }
    split; lra.
  - intros Hpos. destruct (maxScore_reached scoresArray Hpos) as (s & Hs & Heq).
    exists s. split; [exact Hs |]. unfold percentage.
    destruct (Qlt_le_dec 0 (maxScore scoresArray)) as [_ | Hle]; [| lra].
    rewrite Heq. field. lra.
Qed.

(** The bar of an idle agent beside a loaded one. *)
Lemma percentage_range_witness :
  0 <= percentage [summary "alice" 144; summary "bruno" 0] (summary "bruno" 0) <= 100.
Proof.
  assert (Hall : Forall (fun s => 0 <= Score.score_equilibre s)
                        [summary "alice" 144; summary "bruno" 0]).
  { repeat constructor; discriminate. }
  apply (proj1 (percentage_range [summary "alice" 144; summary "bruno" 0] Hall)
           (summary "bruno" 0)).
  right. now left.
Defined.

(** ** The handlers: what they ask of the storage layer *)

Section Handlers.
Variable w : World.

Lemma run_bind {A B : Type} (p : Prog A) (f : A -> Prog B) (log : list Event) :
  run w log (bind p f) = run w (snd (run w log p)) (f (fst (run w log p))).
Proof.
  revert log. induction p as [a | X c k IH]; intros log; cbn [bind run fst snd]; [reflexivity |].
  apply IH.
Qed.

Lemma updatesOf_app (l1 l2 : list Event) : updatesOf (l1 ++ l2) = (updatesOf l1 ++ updatesOf l2)%list.
Proof. apply flat_map_app. Qed.

Lemma insertsOf_app (l1 l2 : list Event) : insertsOf (l1 ++ l2) = (insertsOf l1 ++ insertsOf l2)%list.
Proof. apply flat_map_app. Qed.

Lemma closesOf_app (l1 l2 : list Event) : closesOf (l1 ++ l2) = (closesOf l1 ++ closesOf l2)%list.
Proof. apply flat_map_app. Qed.

Lemma feedbacksOf_app (l1 l2 : list Event) :
  feedbacksOf (l1 ++ l2) = (feedbacksOf l1 ++ feedbacksOf l2)%list.
Proof. apply flat_map_app. Qed.

(** What one [updateAssignment] adds to the events: one write to the
    unit; then, unless that write failed, the closing of the open records
    of the unit and, for a truthy agent, one new record. *)
Lemma updateAssignment_run (log : list Event) (a : Appartement) (agentId : option string) :
  exists err : bool,
    Result.success (fst (run w log (updateAssignment a agentId))) = negb err /\
    Result.message (fst (run w log (updateAssignment a agentId)))
    = (if err then Some updateFailedMessage else None) /\
    updatesOf (snd (run w log (updateAssignment a agentId)))
    = (updatesOf log ++ [(Appartement.id a, agentId,
                          if truthy agentId then assigne else disponible, err)])%list /\
    closesOf (snd (run w log (updateAssignment a agentId)))
    = (closesOf log ++ if err then [] else [Appartement.id a])%list /\
    insertsOf (snd (run w log (updateAssignment a agentId)))
    = (insertsOf log ++
       match agentId with
       | Some k => if negb err && truthy (Some k)
                   then [(Appartement.id a, k, calculateWorkloadScore a)] else []
       | None => []
       end)%list /\
    feedbacksOf (snd (run w log (updateAssignment a agentId))) = feedbacksOf log.
Proof.
  unfold updateAssignment, call. cbn [bind run].
  set (now := w string log Now).
  set (log1 := (log ++ [Ev Now now])%list).
  set (upd := UpdateAppartement (Appartement.id a) agentId
                (if truthy agentId then assigne else disponible) now).
  exists (w bool log1 upd).
  destruct (w bool log1 upd) eqn:E; cbn [run fst snd Result.success Result.message negb andb].
  - unfold log1.
    rewrite !updatesOf_app, !closesOf_app, !insertsOf_app, !feedbacksOf_app. cbn.
    rewrite !app_nil_r. repeat split. destruct agentId; now rewrite app_nil_r.
  - destruct agentId as [k |]; [destruct (truthy (Some k)) eqn:Hk |];
      cbn [bind run fst snd Result.success Result.message]; unfold log1;
      rewrite !updatesOf_app, !closesOf_app, !insertsOf_app, !feedbacksOf_app; cbn;
      rewrite ?Hk, ?app_nil_r, <- ?app_assoc; repeat split.
Qed.

(** The loop commits the pairings in order and stops after the first
    write that fails. *)
Lemma commitLoop_run (assignments : list Assignment) (n : nat) (log : list Event) :
  exists done tail,
    assignments = (done ++ tail)%list /\
    fst (run w log (commitLoop assignments n))
    = ((n + List.length done)%nat, match tail with [] => false | _ :: _ => true end) /\
    updatesOf (snd (run w log (commitLoop assignments n)))
    = (updatesOf log ++ List.map (attempt false) done
                     ++ List.map (attempt true) (firstn 1 tail))%list /\
    closesOf (snd (run w log (commitLoop assignments n)))
    = (closesOf log ++ List.map (fun p => Appartement.id (fst p)) done)%list /\
    insertsOf (snd (run w log (commitLoop assignments n)))
    = (insertsOf log
       ++ List.map recordOf (List.filter (fun p => truthy (Some (snd p))) done))%list /\
    feedbacksOf (snd (run w log (commitLoop assignments n)))
    = (feedbacksOf log ++ match tail with
                          | [] => []
                          | _ :: _ => [Some (Feedback.mk error commitFailedMessage)]
                          end)%list.
Proof.
  revert n log. induction assignments as [| [a k] rest IH]; intros n log.
  - exists [], []. cbn [commitLoop run fst snd app List.map firstn List.length List.filter].
    rewrite !app_nil_r, Nat.add_0_r. now repeat split.
  - cbn [commitLoop]. rewrite run_bind.
    destruct (updateAssignment_run log a (Some k)) as (err & Hs & _ & Hu & Hc & Hi & Hf).
    set (r := run w log (updateAssignment a (Some k))) in *.
    rewrite Hs. destruct err; cbn [negb andb] in *.
    + exists [], ((a, k) :: rest). unfold call. cbn [bind run fst snd].
      rewrite updatesOf_app, closesOf_app, insertsOf_app, feedbacksOf_app, Hu, Hc, Hi, Hf.
      cbn. rewrite !app_nil_r, Nat.add_0_r. now repeat split.
    + destruct (IH (n + 1)%nat (snd r)) as (done & tail & -> & Hr & Hu' & Hc' & Hi' & Hf').
      exists ((a, k) :: done), tail.
      rewrite Hr, Hu', Hc', Hi', Hf', Hu, Hc, Hi, Hf.
      cbn [List.length List.map List.filter fst snd].
      split; [reflexivity |].
      split; [f_equal; lia |].
      split; [now rewrite <- app_assoc |].
      split; [now rewrite <- app_assoc |].
      split; [| reflexivity].
      destruct (truthy (Some k)); cbn [List.map]; now rewrite <- app_assoc.
Qed.
End Handlers.

Section HandlerTheorems.
Variable w : World.

Lemma pairings_agents_nonempty (st : UI.t) :
  Forall (fun p => truthy (Some (snd p)) = true) (pairings (handleAutoDistribute st)).
Proof.
  unfold handleAutoDistribute.
  destruct (List.length (UI.agents st) =? 0)%nat; [constructor |].
  cbn zeta.
  destruct (List.length (List.filter unassignedActive (UI.appartements st)) =? 0)%nat;
    [constructor |].
  pose proof (simulate_fold_agents (UI.agents st) (UI.scoreMap st)
                (sortByScoreDesc (List.filter unassignedActive (UI.appartements st)))
                (UI.store st, []) (Forall_nil _)) as Hall.
  destruct (fold_left _ _ _) as [h assignments]. cbn [snd] in Hall.
  destruct (List.length assignments =? 0)%nat; [constructor |].
  cbn [pairings]. eapply Forall_impl; [| exact Hall].
  intros [u k] [Hne _]. cbn [snd truthy] in *.
  now apply negb_true_iff, String.eqb_neq.
Qed.

Lemma pairings_of_commits (st st' : UI.t) (assignments : list Assignment) :
  handleAutoDistribute st = Commits st' assignments ->
  pairings (handleAutoDistribute st) = assignments /\ assignments <> [].
Proof.
  intros E. rewrite E. split; [reflexivity |].
  unfold handleAutoDistribute in E.
  destruct (List.length (UI.agents st) =? 0)%nat; [discriminate |].
  cbn zeta in E.
  destruct (List.length (List.filter unassignedActive (UI.appartements st)) =? 0)%nat;
    [discriminate |].
  destruct (fold_left _ _ _) as [h l].
  destruct (List.length l =? 0)%nat eqn:Hl; [discriminate |].
  injection E as _ <-. intros ->. discriminate.
Qed.

Lemma attempt_truthy (err : bool) (l : list Assignment) :
  Forall (fun p => truthy (Some (snd p)) = true) l ->
  List.map (attempt err) l = List.map (commitWrite err) l /\
  List.filter (fun p => truthy (Some (snd p))) l = l.
Proof.
  induction 1 as [| p l Hp Hl [IH1 IH2]]; [now split |].
  cbn [List.map List.filter]. rewrite Hp, IH1, IH2. unfold attempt at 1. now rewrite Hp.
Qed.

(** What the end of [handleAutoDistribute] adds to the events. *)
Lemma commitAssignments_run (assignments : list Assignment) (log : list Event) :
  exists done tail,
    assignments = (done ++ tail)%list /\
    updatesOf (snd (run w log (commitAssignments assignments)))
    = (updatesOf log ++ List.map (attempt false) done
                     ++ List.map (attempt true) (firstn 1 tail))%list /\
    closesOf (snd (run w log (commitAssignments assignments)))
    = (closesOf log ++ List.map (fun p => Appartement.id (fst p)) done)%list /\
    insertsOf (snd (run w log (commitAssignments assignments)))
    = (insertsOf log
       ++ List.map recordOf (List.filter (fun p => truthy (Some (snd p))) done))%list /\
    feedbacksOf (snd (run w log (commitAssignments assignments)))
    = (feedbacksOf log ++
       match tail, done with
       | _ :: _, _ => [Some (Feedback.mk error commitFailedMessage)]
       | [], _ :: _ => [Some (Feedback.mk success (committedMessage (List.length done)))]
       | [], [] => []
       end)%list /\
    exists log', snd (run w log (commitAssignments assignments))
                 = (log' ++ [Ev (SetIsAutoAssigning false) tt])%list.
Proof.
  unfold commitAssignments. rewrite run_bind.
  destruct (commitLoop_run w assignments 0 log) as (done & tail & -> & Hr & Hu & Hc & Hi & Hf).
  set (r := run w log (commitLoop (done ++ tail) 0)) in *.
  exists done, tail. split; [reflexivity |].
  rewrite Hr. cbn [fst snd Nat.add]. unfold call.
  assert (Hunit : forall (l : list Event) (c : Call unit), w unit l c = tt).
  { intros l c. now destruct (w unit l c). }
  destruct tail as [| t tail]; [destruct done as [| d done] |];
    cbn [negb andb Nat.ltb Nat.leb List.length bind run fst snd];
    rewrite !updatesOf_app, !closesOf_app, !insertsOf_app, !feedbacksOf_app, Hu, Hc, Hi, Hf;
    cbn [updatesOf closesOf insertsOf feedbacksOf flat_map updateOf closeOf insertOf feedbackOf app];
    rewrite ?app_nil_r, ?Hunit; repeat split; eauto.
Qed.
End HandlerTheorems.

(** X18. Once [handleAutoDistribute] commits, in any environment: it
    sends the writes of the pairings in their order, each making the unit
    [assigne] to its agent, and stops after the first write that fails;
    for each pairing whose write succeeded, and for no other, it closes the
    open records of the unit and adds one record for the unit and the
    agent, carrying the score of the unit. *)
Theorem handleAutoDistribute_commits_in_order (w : World) (st : UI.t) :
  exists done tail,
    pairings (handleAutoDistribute st) = (done ++ tail)%list /\
    updatesOf (snd (run w [] (handleAutoDistributeCalls st)))
    = (List.map (commitWrite false) done ++ List.map (commitWrite true) (firstn 1 tail))%list /\
    closesOf (snd (run w [] (handleAutoDistributeCalls st)))
    = List.map (fun p => Appartement.id (fst p)) done /\
    insertsOf (snd (run w [] (handleAutoDistributeCalls st))) = List.map recordOf done.
Proof.
  pose proof (pairings_agents_nonempty st) as Hall.
  unfold handleAutoDistributeCalls.
  destruct (handleAutoDistribute st) as [st' | st' assignments]; cbn [pairings] in *.
  - exists [], []. now repeat split.
  - destruct (commitAssignments_run w assignments []) as (done & tail & -> & Hu & Hc & Hi & _).
    apply Forall_app in Hall as [Hdone Htail].
    exists done, tail. split; [reflexivity |].
    rewrite Hu, Hc, Hi. cbn [updatesOf closesOf insertsOf flat_map app].
    destruct (attempt_truthy false done Hdone) as [-> ->].
    assert (Hfirst : Forall (fun p => truthy (Some (snd p)) = true) (firstn 1 tail)).
    { destruct tail as [| t tail]; [constructor |]. cbn [firstn].
      inversion Htail; subst. now repeat constructor. }
    destruct (attempt_truthy true (firstn 1 tail) Hfirst) as [-> _].
    now repeat split.
Qed.

(** X19. When [handleAutoDistribute] commits, in any environment, it sets
    one feedback after the simulation: the error of the automatic
    distribution when some write failed, and otherwise the success message
    with the number of the pairings; and its last call sets
    [isAutoAssigning] to [false]. *)
Theorem handleAutoDistribute_final_feedback
    (w : World) (st st' : UI.t) (assignments : list Assignment) :
  handleAutoDistribute st = Commits st' assignments ->
  feedbacksOf (snd (run w [] (handleAutoDistributeCalls st)))
  = [Some (if someFailed (updatesOf (snd (run w [] (handleAutoDistributeCalls st))))
           then Feedback.mk error commitFailedMessage
           else Feedback.mk success (committedMessage (List.length assignments)))] /\
  exists log', snd (run w [] (handleAutoDistributeCalls st))
               = (log' ++ [Ev (SetIsAutoAssigning false) tt])%list.
Proof.
  intros E. destruct (pairings_of_commits st st' assignments E) as [_ Hne].
  unfold handleAutoDistributeCalls. rewrite E.
  destruct (commitAssignments_run w assignments []) as (done & tail & -> & Hu & _ & _ & Hf & Hl).
  split; [| exact Hl].
  rewrite Hf, Hu. cbn [feedbacksOf updatesOf flat_map app].
  assert (Hok : someFailed (List.map (attempt false) done) = false).
  { unfold someFailed. clear. induction done as [| d done IH]; [reflexivity | exact IH]. }
  unfold someFailed in *. rewrite existsb_app, Hok. cbn [orb].
  destruct tail as [| t tail].
  - rewrite app_nil_r in *. destruct done; [congruence | reflexivity].
  - reflexivity.
Qed.

(** Two units to assign and a storage layer that refuses the write for
    [loft]: the heavier [loft] comes first and the commit stops there. *)
Lemma handleAutoDistribute_final_feedback_witness :
  feedbacksOf (snd (run (sampleWorld "loft") []
                      (handleAutoDistributeCalls (loadedState [alice; bruno] [orphelin; loft]))))
  = [Some (if someFailed
                (updatesOf (snd (run (sampleWorld "loft") []
                   (handleAutoDistributeCalls (loadedState [alice; bruno] [orphelin; loft])))))
           then Feedback.mk error commitFailedMessage
           else Feedback.mk success (committedMessage 2))].
Proof.
  assert (E : exists st',
             handleAutoDistribute (loadedState [alice; bruno] [orphelin; loft])
             = Commits st' [(loft, "alice"); (orphelin, "bruno")]).
  { eexists. vm_compute. reflexivity. }
  destruct E as [st' E].
  apply (handleAutoDistribute_final_feedback (sampleWorld "loft")
           (loadedState [alice; bruno] [orphelin; loft]) st'
           [(loft, "alice"); (orphelin, "bruno")] E).
Defined.

(** X20. [handleAssignAgent], in any environment: for an id that no unit
    has it makes no call; otherwise it sends one write for the first unit
    with that id, and when the write fails it only sets the error feedback
    of the failed update, and when it succeeds it closes the open records
    of the unit, adds a record exactly when the agent is truthy, and sets
    the success feedback. *)
Theorem handleAssignAgent_calls
    (w : World) (appartements : list Appartement) (appartementId : string)
    (agentId : option string) :
  match List.find (fun a => String.eqb (Appartement.id a) appartementId) appartements with
  | None => snd (run w [] (handleAssignAgent appartements appartementId agentId)) = []
  | Some a =>
      exists err : bool,
        updatesOf (snd (run w [] (handleAssignAgent appartements appartementId agentId)))
        = [(Appartement.id a, agentId, if truthy agentId then assigne else disponible, err)] /\
        closesOf (snd (run w [] (handleAssignAgent appartements appartementId agentId)))
        = (if err then [] else [Appartement.id a]) /\
        insertsOf (snd (run w [] (handleAssignAgent appartements appartementId agentId)))
        = match agentId with
          | Some k => if negb err && truthy (Some k)
                      then [(Appartement.id a, k, calculateWorkloadScore a)] else []
          | None => []
          end /\
        feedbacksOf (snd (run w [] (handleAssignAgent appartements appartementId agentId)))
        = [Some (if err then Feedback.mk error updateFailedMessage
                 else Feedback.mk success
                        (if truthy agentId then assignedMessage else releasedMessage))]
  end.
Proof.
  unfold handleAssignAgent.
  destruct (List.find _ appartements) as [a |]; [| reflexivity].
  rewrite run_bind.
  destruct (updateAssignment_run w [] a agentId) as (err & Hs & Hm & Hu & Hc & Hi & Hf).
  set (r := run w [] (updateAssignment a agentId)) in *.
  exists err. rewrite Hs. unfold call.
  destruct err; cbn [negb bind run fst snd];
    rewrite !updatesOf_app, !closesOf_app, !insertsOf_app, !feedbacksOf_app, ?Hu, ?Hc, ?Hi, ?Hf, ?Hm;
    cbn [updatesOf closesOf insertsOf feedbacksOf flat_map updateOf closeOf insertOf feedbackOf
         app truthy negb String.eqb];
    rewrite ?app_nil_r; repeat split.
Qed.

(** A unit is released: one write, the closing of its open records, the
    reload, and the feedback. *)
Example handleAssignAgent_sample :
  snd (run (sampleWorld "loft") [] (handleAssignAgent [loft; studio] "studio" None))
  = [Ev Now "2025-11-11T00:00:00.000Z";
     Ev (UpdateAppartement "studio" None disponible "2025-11-11T00:00:00.000Z") false;
     Ev (CloseHistorique "studio" "2025-11-11T00:00:00.000Z") false;
     Ev LoadAppartements tt;
     Ev OnUpdate tt;
     Ev (SetFeedback (Some (Feedback.mk success releasedMessage))) tt;
     Ev (SetEditingId None) tt].
Proof. reflexivity. Qed.

(** ** AutoDistributor: the simulation agrees with the aggregator *)

Section SimulationAgrees.

(** Two maps with the same keys in the same order and the same value
    under each key are the same map. *)
Lemma JsMap_ext {V : Type} (m1 m2 : JsMap.t V) :
  JsMap.wf m1 -> JsMap.keys m1 = JsMap.keys m2 ->
  (forall k, JsMap.get k m1 = JsMap.get k m2) -> m1 = m2.
Proof.
  unfold JsMap.wf, JsMap.keys.
  revert m2. induction m1 as [| [k1 v1] m1 IH]; intros [| [k2 v2] m2]; cbn;
    try discriminate; [reflexivity |].
  intros Hnd [= <- Hk] Hget. inversion Hnd as [| ? ? Hfresh Hnd']; subst.
  pose proof (Hget k1) as H1. rewrite String.eqb_refl in H1. injection H1 as <-.
  f_equal. apply IH; [assumption | assumption |].
  intros k. specialize (Hget k). revert Hget.
  destruct (String.eqb_spec k k1) as [E | _]; [intros _; subst k | now intros Hget].
  assert (Hn1 : JsMap.get k1 m1 = None) by now apply JsMapFacts.get_none_keys.
  assert (Hn2 : JsMap.get k1 m2 = None).
  { apply JsMapFacts.get_none_keys. unfold JsMap.keys. now rewrite <- Hk. }
  now rewrite Hn1, Hn2.
Qed.

(** Reading a map of objects, key by key. *)
Lemma deref_get (h : heap) (m : JsMap.t loc) (k : string) :
  (forall k' l, In (k', l) m -> h !! l <> None) ->
  JsMap.get k (deref h m) = match JsMap.get k m with Some l => h !! l | None => None end.
Proof.
  induction m as [| [k0 l0] m IH]; intros Hall; cbn [deref JsMap.get]; [reflexivity |].
  destruct (h !! l0) as [s |] eqn:E.
  - cbn [JsMap.get]. destruct (String.eqb k k0); [now rewrite E |].
    apply IH. intros k' l Hin. apply (Hall k' l). now right.
  - exfalso. apply (Hall k0 l0); [now left | exact E].
Qed.

Lemma deref_keys (h : heap) (m : JsMap.t loc) :
  (forall k' l, In (k', l) m -> h !! l <> None) ->
  JsMap.keys (deref h m) = JsMap.keys m.
Proof.
  induction m as [| [k0 l0] m IH]; intros Hall; cbn [deref]; [reflexivity |].
  destruct (h !! l0) as [s |] eqn:E.
  - cbn. f_equal. apply IH. intros k' l Hin. apply (Hall k' l). now right.
  - exfalso. apply (Hall k0 l0); [now left | exact E].
Qed.

(** The store and the map of [loadedState], entry by entry. *)
Lemma allocate_lookup (scores : JsMap.t DistributionScore) (start : nat) (k : string) :
  JsMap.wf scores ->
  match JsMap.get k (combine (JsMap.keys scores) (seq start (List.length scores))) with
  | Some l =>
      (list_to_map (combine (seq start (List.length scores)) (JsMap.values scores)) : heap) !! l
      = JsMap.get k scores /\ JsMap.get k scores <> None
  | None => JsMap.get k scores = None
  end.
Proof.
  unfold JsMap.wf, JsMap.keys, JsMap.values.
  revert start. induction scores as [| [k0 s0] scores IH]; intros start Hnd;
    cbn [List.map List.length seq combine JsMap.get fst snd list_to_map foldr]; [reflexivity |].
  inversion Hnd as [| ? ? Hfresh Hnd']; subst.
  destruct (String.eqb_spec k k0) as [-> | Hne].
  - cbn [uncurry]. rewrite lookup_insert_eq. split; [reflexivity | discriminate].
  - specialize (IH (S start) Hnd').
    destruct (JsMap.get k (combine (List.map fst scores) (seq (S start) (List.length scores))))
      as [l |] eqn:E; [| exact IH].
    destruct IH as [IH1 IH2]. split; [| exact IH2].
    cbn [uncurry]. rewrite lookup_insert_ne; [exact IH1 |].
    intros <-.
    assert (Hin : In start (seq (S start) (List.length scores))).
    { clear -E. revert E. generalize (seq (S start) (List.length scores)).
      induction (List.map fst scores) as [| k1 ks IHk]; intros [| x xs]; cbn; try discriminate.
      destruct (String.eqb k k1); [intros [= ->]; now left | right; eauto]. }
    apply in_seq in Hin. lia.
Qed.

Lemma combine_keys_seq (keys : list string) (start : nat) :
  List.map fst (combine keys (seq start (List.length keys))) = keys /\
  List.map snd (combine keys (seq start (List.length keys))) = seq start (List.length keys).
Proof.
  revert start. induction keys as [| k ks IH]; intros start; cbn; [now split |].
  destruct (IH (S start)) as [-> ->]. now split.
Qed.

(** Adding units to a summary as the simulation does and as the
    aggregator does give the same summary. *)
Lemma simulateAssign_fold_rescore (ps : list Assignment) (t : DistributionScore) :
  fold_left simulateAssign (List.map fst ps) (rescore t)
  = rescore (fold_left addUnit (List.map withAgent ps) t).
Proof.
  revert t. induction ps as [| p ps IH]; intros t; cbn [List.map fold_left]; [reflexivity |].
  rewrite <- IH. reflexivity.
Qed.

Lemma unitsOf_withAgent (k : string) (ps : list Assignment) :
  Forall (fun p => truthy (Some (snd p)) = true) ps ->
  unitsOf k (List.map withAgent ps)
  = List.map withAgent (List.filter (fun p => String.eqb (snd p) k) ps).
Proof.
  unfold unitsOf. induction 1 as [| p ps Hp Hps IH]; [reflexivity |].
  cbn [List.map List.filter]. unfold assignedTo at 1. cbn [withAgent Appartement.agent_id].
  rewrite Hp. cbn [andb]. destruct (String.eqb (snd p) k); cbn [List.map]; now rewrite IH.
Qed.
End SimulationAgrees.

(** X21. After [loadAppartements], the summaries that the simulation of
    [handleAutoDistribute] leaves in [scoreMap] are those that
    [calculateAgentScores] computes for the loaded units followed by the
    paired units, each with the agent of its pairing. *)
Theorem handleAutoDistribute_simulates_aggregation
    (agents : list Agent) (data : list Appartement) :
  deref (UI.store (stateOf (handleAutoDistribute (loadedState agents data))))
        (UI.scoreMap (loadedState agents data))
  = calculateAgentScores agents
      (data ++ List.map withAgent (pairings (handleAutoDistribute (loadedState agents data)))).
Proof.
  set (st := loadedState agents data).
  set (ps := pairings (handleAutoDistribute st)).
  set (scores := calculateAgentScores agents data).
  assert (Hst : UI.scoreMap st = combine (JsMap.keys scores) (seq 0 (List.length scores)) /\
                UI.store st = list_to_map (combine (seq 0 (List.length scores))
                                                   (JsMap.values scores))).
  { unfold st, loadedState, scores, calculateAgentScores. cbn zeta.
    rewrite accumulate_fold_truthy. now split. }
  destruct Hst as [Hmap Hstore].
  assert (Hwf : JsMap.wf scores).
  { unfold scores, calculateAgentScores, JsMap.wf. cbn zeta.
    rewrite JsMapFacts.keys_map, accumulate_fold_keys. apply initScores_wf. }
  assert (Hlen : List.length (JsMap.keys scores) = List.length scores).
  { unfold JsMap.keys. apply length_map. }
  destruct (combine_keys_seq (JsMap.keys scores) 0) as [Hk Hv]. rewrite Hlen in Hk, Hv.
  assert (Hkeys : JsMap.keys (UI.scoreMap st) = JsMap.keys scores).
  { rewrite Hmap. exact Hk. }
  assert (Hnd : NoDup (JsMap.values (UI.scoreMap st))).
  { rewrite Hmap. unfold JsMap.values. rewrite Hv. apply seq_NoDup. }
  assert (Hlook : forall k,
             match JsMap.get k (UI.scoreMap st) with
             | Some l => UI.store st !! l = JsMap.get k scores /\ JsMap.get k scores <> None
             | None => JsMap.get k scores = None
             end).
  { intros k. rewrite Hmap, Hstore. now apply allocate_lookup. }
  assert (Hsim : forall k l s,
             JsMap.get k (UI.scoreMap st) = Some l -> UI.store st !! l = Some s ->
             UI.store (stateOf (handleAutoDistribute st)) !! l
             = Some (fold_left simulateAssign (unitsPairedWith k ps) s)).
  { apply simulated_objects. exact Hnd. }
  assert (Halloc : forall k l, In (k, l) (UI.scoreMap st) ->
                               UI.store (stateOf (handleAutoDistribute st)) !! l <> None).
  { intros k l Hin.
    assert (Hg : JsMap.get k (UI.scoreMap st) = Some l).
    { apply get_of_In; [| exact Hin]. unfold JsMap.wf. now rewrite Hkeys. }
    pose proof (Hlook k) as Hl. rewrite Hg in Hl. destruct Hl as [Hl Hsome].
    destruct (JsMap.get k scores) as [s |] eqn:Es; [| congruence].
    rewrite (Hsim k l s Hg Hl). discriminate. }
  apply JsMap_ext.
  - unfold JsMap.wf. rewrite (deref_keys _ _ Halloc), Hkeys. exact Hwf.
  - rewrite (deref_keys _ _ Halloc), Hkeys.
    unfold scores, calculateAgentScores. cbn zeta.
    now rewrite !JsMapFacts.keys_map, !accumulate_fold_keys.
  - intros k. rewrite (deref_get _ _ k Halloc).
    pose proof (Hlook k) as Hl.
    assert (Hall : Forall (fun p => truthy (Some (snd p)) = true) ps)
      by apply pairings_agents_nonempty.
    assert (Hnew : JsMap.get k (calculateAgentScores agents (data ++ List.map withAgent ps))
                   = option_map (fun s => fold_left simulateAssign (unitsPairedWith k ps) s)
                                (JsMap.get k scores)).
    { unfold scores, calculateAgentScores. cbn zeta.
      rewrite !JsMapFacts.get_map, !accumulate_fold_get, initScores_get.
      destruct (isAgentId agents k); [| reflexivity]. cbn [option_map]. f_equal.
      unfold unitsOf at 1. rewrite List.filter_app, fold_left_app.
      fold (unitsOf k data). fold (unitsOf k (List.map withAgent ps)).
      rewrite (unitsOf_withAgent k ps Hall). unfold unitsPairedWith.
      now rewrite simulateAssign_fold_rescore. }
    rewrite Hnew.
    destruct (JsMap.get k (UI.scoreMap st)) as [l |] eqn:Eg.
    + destruct Hl as [Hl Hsome].
      destruct (JsMap.get k scores) as [s |] eqn:Es; [| congruence].
      now rewrite (Hsim k l s Eg Hl).
    + now rewrite Hl.
Qed.
